(** * config: the configuration loader of [config/default.go]

    A shallow embedding of the Go package [config]: the dynamic document
    tree, the dotted-key lookup ([parseKey], [search], [locateSubkey],
    [find]), the typed getters, the instance-level [Load] and [Reload], and
    the loader ([FullConfigLoader]) with its cache map and the watch
    callbacks that evict cache entries. *)

From Stdlib Require Import ZArith String Ascii List.
From Stdlib.Strings Require Import Byte.
From stdpp Require Import base option list gmap strings pretty fin_maps.

Local Open Scope string_scope.
Set Warnings "-register-all".

(** ** Errors and results *)

(** Go [error] values.  The three sentinels are the package's [var] block;
    [errorString] is an error built by [fmt.Errorf], or one returned by a
    provider or a decoder. *)
Inductive error : Type :=
  | ErrConfigNotExist
  | ErrProviderNotExist
  | ErrCodecNotExist
  | errorString (msg : string).

(** [err.Error()] *)
Definition Error (e : error) : string :=
  match e with
  | ErrConfigNotExist => "app/config: config not exist"
  | ErrProviderNotExist => "app/config: provider not exist"
  | ErrCodecNotExist => "app/config: codec not exist"
  | errorString msg => msg
  end.

(** A Go pair [(T, error)]: either the value with a [nil] error, or the
    error. *)
Inductive result (A : Type) : Type :=
  | Ok (a : A)
  | Err (e : error).
Arguments Ok {A} a.
Arguments Err {A} e.

Definition is_Ok {A} (r : result A) : bool :=
  match r with Ok _ => true | Err _ => false end.

(** A Go call either returns or panics.  The only panics of this package
    are method calls through a [nil] interface value. *)
Inductive outcome (A : Type) : Type :=
  | Returns (a : A)
  | Panics (msg : string).
Arguments Returns {A} a.
Arguments Panics {A} msg.

Definition obind {A B} (m : outcome A) (k : A -> outcome B) : outcome B :=
  match m with
  | Returns a => k a
  | Panics msg => Panics msg
  end.

Notation "x <~ m ;; k" := (obind m (fun x => k))
  (at level 100, m at next level, right associativity).

Definition nil_dereference : string :=
  "runtime error: invalid memory address or nil pointer dereference".

(** A method call on an interface value that may be [nil]. *)
Definition invoke {I A} (i : option I) (method : I -> A) : outcome A :=
  match i with
  | Some x => Returns (method x)
  | None => Panics nil_dereference
  end.

Definition panics {A} (o : outcome A) : Prop :=
  match o with Panics _ => True | Returns _ => False end.

(** ** The dynamic tree *)

(** The values an [interface{}] of a decoded document holds.  Integers are
    mathematical integers tagged with their Go type; floats are carried as
    their IEEE bit patterns, since this package only passes them on.
    [VStrMap] is [map[string]interface{}]; [VIfaceMap] is
    [map[interface{}]interface{}], listed in the order a [range] over it
    visits its entries. *)
Inductive value : Type :=
  | VNil
  | VBool (b : bool)
  | VString (s : string)
  | VInt (n : Z)
  | VInt32 (n : Z)
  | VInt64 (n : Z)
  | VUint (n : Z)
  | VUint32 (n : Z)
  | VUint64 (n : Z)
  | VFloat32 (bits : Z)
  | VFloat64 (bits : Z)
  | VSlice (l : list value)
  | VStrMap (m : gmap string value)
  | VIfaceMap (m : list (value * value)).

(** ** [strings.Split] and [strings.Join] *)

Definition dot : ascii := "."%char.

(** [Split s sep] cuts [s] at every occurrence of the one-byte separator
    [sep], keeping empty pieces, as [strings.Split] does. *)
Fixpoint Split (s : string) (sep : ascii) : list string :=
  match s with
  | EmptyString => [ "" ]
  | String ch rest =>
      if Ascii.eqb ch sep then "" :: Split rest sep
      else match Split rest sep with
           | piece :: pieces => String ch piece :: pieces
           | [] => [ String ch "" ]
           end
  end.

(** [strings.Join(l, sep)] *)
Fixpoint Join (l : list string) (sep : ascii) : string :=
  match l with
  | [] => ""
  | [ piece ] => piece
  | piece :: rest => piece ++ String sep (Join rest sep)
  end.

(** ** The coercion library [github.com/spf13/cast]

    The package delegates every conversion of a dynamic value to [cast].
    The library is an interface here: its [To<T>E] functions, and
    [ToStringMap].  [CastLaws] states what the lookup code relies on. *)
Class Cast : Type := {
  ToBoolE : value -> result bool;
  ToStringE : value -> result string;
  ToIntE : value -> result Z;
  ToInt32E : value -> result Z;
  ToInt64E : value -> result Z;
  ToUintE : value -> result Z;
  ToUint32E : value -> result Z;
  ToUint64E : value -> result Z;
  ToFloat64E : value -> result Z;
  ToFloat32E : value -> result Z;
  ToStringMap : value -> gmap string value
}.

(** [cast.To<T>(i)] is [v, _ := cast.To<T>E(i); return v]: the zero value
    of the type when the conversion fails. *)
Definition or_zero {A} (zero : A) (r : result A) : A :=
  match r with Ok a => a | Err _ => zero end.

Definition stringify_keys_with (to_string : value -> string)
    (entries : list (value * value)) : gmap string value :=
  foldl (fun m kv => <[ to_string kv.1 := kv.2 ]> m) ∅ entries.

Section CastWrappers.
Context `{Cast}.

Definition ToBool (i : value) : bool := or_zero false (ToBoolE i).
Definition ToString (i : value) : string := or_zero "" (ToStringE i).
Definition ToInt (i : value) : Z := or_zero 0%Z (ToIntE i).
Definition ToInt32 (i : value) : Z := or_zero 0%Z (ToInt32E i).
Definition ToInt64 (i : value) : Z := or_zero 0%Z (ToInt64E i).
Definition ToUint (i : value) : Z := or_zero 0%Z (ToUintE i).
Definition ToUint32 (i : value) : Z := or_zero 0%Z (ToUint32E i).
Definition ToUint64 (i : value) : Z := or_zero 0%Z (ToUint64E i).
Definition ToFloat64 (i : value) : Z := or_zero 0%Z (ToFloat64E i).
Definition ToFloat32 (i : value) : Z := or_zero 0%Z (ToFloat32E i).

(** What [cast.ToStringMap] builds from a [map[interface{}]interface{}]:
    [for k, val := range v { m[ToString(k)] = val }]. *)
Definition stringify_keys (entries : list (value * value)) : gmap string value :=
  stringify_keys_with ToString entries.
End CastWrappers.

(** The behaviour of [cast] the package relies on: a value that already
    has the requested type converts to itself, a string-keyed map is
    returned as it is, an interface-keyed map has its keys converted with
    [ToString], and [nil] gives the empty map. *)
Class CastLaws `{Cast} : Prop := {
  ToBoolE_bool : forall b, ToBoolE (VBool b) = Ok b;
  ToStringE_string : forall s, ToStringE (VString s) = Ok s;
  ToIntE_int : forall n, ToIntE (VInt n) = Ok n;
  ToInt32E_int32 : forall n, ToInt32E (VInt32 n) = Ok n;
  ToInt64E_int64 : forall n, ToInt64E (VInt64 n) = Ok n;
  ToUintE_uint : forall n, ToUintE (VUint n) = Ok n;
  ToUint32E_uint32 : forall n, ToUint32E (VUint32 n) = Ok n;
  ToUint64E_uint64 : forall n, ToUint64E (VUint64 n) = Ok n;
  ToFloat64E_float64 : forall x, ToFloat64E (VFloat64 x) = Ok x;
  ToFloat32E_float32 : forall x, ToFloat32E (VFloat32 x) = Ok x;
  ToStringMap_StrMap : forall m, ToStringMap (VStrMap m) = m;
  ToStringMap_IfaceMap : forall l, ToStringMap (VIfaceMap l) = stringify_keys l;
  ToStringMap_nil : ToStringMap VNil = ∅
}.

(** ** Providers, decoders and the configuration instance *)

(** The [Codec] interface.  [Unmarshal(in, out)] writes through [out] and
    returns an error or [nil]; the package calls it with two kinds of
    target: [Unmarshal in v] is the call with [out] a [*interface{}] whose
    content is [v], [UnmarshalStringMap in m] the call with [out] a
    [*map[string]interface{}] whose content is [m].  Each returns what the
    target holds after the call, also when the call fails. *)
Record Codec : Type := {
  Codec_Name : string;
  Unmarshal : list byte -> value -> value * option error;
  UnmarshalStringMap :
    list byte -> gmap string value -> gmap string value * option error
}.

(** The [DataProvider] interface, over the state [Env] of the outside
    world the provider reads from.  [Watch] is modelled with the loader,
    which keeps the registered callbacks. *)
Record DataProvider (Env : Type) : Type := {
  Provider_Name : string;
  Read : Env -> string -> result (list byte)
}.
Arguments Provider_Name {Env} _.
Arguments Read {Env} _ _ _.

(** [type FrameworkConfig struct]; a [nil] interface field is [None]. *)
Record FrameworkConfig (Env : Type) : Type := {
  p : option (DataProvider Env);
  unmarshedData : value;
  path : string;
  decoder : option Codec;
  rawData : list byte
}.
Arguments p {Env} _.
Arguments unmarshedData {Env} _.
Arguments path {Env} _.
Arguments decoder {Env} _.
Arguments rawData {Env} _.

Section Lookup.
Context {Env : Type} `{Cast}.
Implicit Types (c : FrameworkConfig Env) (key : string).

Definition parseKey c key : list string := Split key dot.

Fixpoint search c (unmarshedData : gmap string value) (subkeys : list string)
  : result value :=
  match subkeys with
  | [] => Err ErrConfigNotExist
  | subkey :: rest =>
      match unmarshedData !! subkey with
      | Some next =>
          match rest with
          | [] => Ok next
          | _ :: _ =>
              match next with
              | VIfaceMap _ => search c (ToStringMap next) rest
              | VStrMap m => search c m rest
              | _ => Err ErrConfigNotExist
              end
          end
      | None => Err ErrConfigNotExist
      end
  end.

Definition locateSubkey c (subkeys : list string) : result value :=
  search c (ToStringMap (unmarshedData c)) subkeys.

Definition find c key : result value :=
  let subkeys := parseKey c key in
  locateSubkey c subkeys.

Definition Get c key (defaultValue : value) : value :=
  match find c key with
  | Ok v => v
  | Err _ => defaultValue
  end.

Definition Bytes c : list byte := rawData c.

(** The [switch defaultValue.(type)] of the source: [v, err] are
    overwritten by the conversion chosen by the default's type, and left
    alone in the [default:] case. *)
Definition findWithDefaultValue c key (defaultValue : value) : value :=
  match find c key with
  | Err _ => defaultValue
  | Ok v =>
      let box {A} (tag : A -> value) (r : result A) : value :=
        match r with Ok a => tag a | Err _ => defaultValue end in
      match defaultValue with
      | VBool _ => box VBool (ToBoolE v)
      | VString _ => box VString (ToStringE v)
      | VInt _ => box VInt (ToIntE v)
      | VInt32 _ => box VInt32 (ToInt32E v)
      | VInt64 _ => box VInt64 (ToInt64E v)
      | VUint _ => box VUint (ToUintE v)
      | VUint32 _ => box VUint32 (ToUint32E v)
      | VUint64 _ => box VUint64 (ToUint64E v)
      | VFloat64 _ => box VFloat64 (ToFloat64E v)
      | VFloat32 _ => box VFloat32 (ToFloat32E v)
      | _ => v
      end
  end.

Definition GetInt c key (defaultValue : Z) : Z :=
  ToInt (findWithDefaultValue c key (VInt defaultValue)).
Definition GetInt32 c key (defaultValue : Z) : Z :=
  ToInt32 (findWithDefaultValue c key (VInt32 defaultValue)).
Definition GetInt64 c key (defaultValue : Z) : Z :=
  ToInt64 (findWithDefaultValue c key (VInt64 defaultValue)).
Definition GetUint c key (defaultValue : Z) : Z :=
  ToUint (findWithDefaultValue c key (VUint defaultValue)).
Definition GetUint32 c key (defaultValue : Z) : Z :=
  ToUint32 (findWithDefaultValue c key (VUint32 defaultValue)).
Definition GetUint64 c key (defaultValue : Z) : Z :=
  ToUint64 (findWithDefaultValue c key (VUint64 defaultValue)).
Definition GetFloat64 c key (defaultValue : Z) : Z :=
  ToFloat64 (findWithDefaultValue c key (VFloat64 defaultValue)).
Definition GetFloat32 c key (defaultValue : Z) : Z :=
  ToFloat32 (findWithDefaultValue c key (VFloat32 defaultValue)).
Definition GetBool c key (defaultValue : bool) : bool :=
  ToBool (findWithDefaultValue c key (VBool defaultValue)).

Definition IsSet c key : bool :=
  let subkeys := parseKey c key in
  match locateSubkey c subkeys with
  | Err _ => false
  | Ok _ => true
  end.

Definition GetString c key (defaultValue : string) : string :=
  let subkeys := parseKey c key in
  match locateSubkey c subkeys with
  | Err _ => defaultValue
  | Ok value =>
      match value with
      | VString result => result
      | _ =>
          match ToStringE value with
          | Ok result => result
          | Err _ => defaultValue
          end
      end
  end.
End Lookup.

(** ** Instance-level [Load] and [Reload] *)

Section Instance.
Context {Env : Type}.
Implicit Types (c : FrameworkConfig Env) (env : Env).

Definition set_rawData c (data : list byte) : FrameworkConfig Env :=
  {| p := p c; unmarshedData := unmarshedData c; path := path c;
     decoder := decoder c; rawData := data |}.

Definition set_unmarshedData c (tree : value) : FrameworkConfig Env :=
  {| p := p c; unmarshedData := tree; path := path c;
     decoder := decoder c; rawData := rawData c |}.

(** [fmt.Errorf("app/config: failed to load %s: %s", c.path, err.Error())] *)
Definition failed_to_load c (err : error) : error :=
  errorString ("app/config: failed to load " ++ path c ++ ": " ++ Error err).

(** [fmt.Errorf("app/config: failed to parse %s: %s", c.path, err.Error())] *)
Definition failed_to_parse c (err : error) : error :=
  errorString ("app/config: failed to parse " ++ path c ++ ": " ++ Error err).

(** [(c *FrameworkConfig) Load() error]: the instance after the call and
    the returned error ([None] is [nil]).  The two assignments of the
    source come before the call of the decoder, which writes through
    [&c.unmarshedData]. *)
Definition FrameworkConfig_Load env c : outcome (FrameworkConfig Env * option error) :=
  match p c with
  | None => Returns (c, Some ErrProviderNotExist)
  | Some provider =>
      match Read provider env (path c) with
      | Err err => Returns (c, Some (failed_to_load c err))
      | Ok data =>
          let c := set_rawData c data in
          let c := set_unmarshedData c (VStrMap ∅) in
          decoded <~ invoke (decoder c)
                       (fun d => Unmarshal d (rawData c) (unmarshedData c)) ;;
          let c := set_unmarshedData c decoded.1 in
          match decoded.2 with
          | Some err => Returns (c, Some (failed_to_parse c err))
          | None => Returns (c, None)
          end
      end
  end.

(** The two [fmt.Printf] lines of [Reload]; [%v] prints [err.Error()]. *)
Definition reload_failed_line c (err : error) : string :=
  "app/config: failed to reload " ++ path c ++ ": " ++ Error err.

Definition parse_failed_line c (err : error) : string :=
  "app/config: failed to parse " ++ path c ++ ": " ++ Error err.

(** [(c *FrameworkConfig) Reload()]: the instance after the call and the
    lines printed to standard output.  There is no error result. *)
Definition FrameworkConfig_Reload env c : outcome (FrameworkConfig Env * list string) :=
  match p c with
  | None => Returns (c, [])
  | Some provider =>
      match Read provider env (path c) with
      | Err err => Returns (c, [ reload_failed_line c err ])
      | Ok data =>
          decoded <~ invoke (decoder c) (fun d => UnmarshalStringMap d data ∅) ;;
          match decoded.2 with
          | Some err => Returns (c, [ parse_failed_line c err ])
          | None =>
              let c := set_rawData c data in
              let c := set_unmarshedData c (VStrMap decoded.1) in
              Returns (c, [])
          end
      end
  end.
End Instance.

(** ** The YAML decoder [gopkg.in/yaml.v3]

    [YamlCodec.Unmarshal] is [yaml.Unmarshal]; the library is an interface
    here, with one function per kind of target (see [Codec]). *)
Class Yaml : Type := {
  yaml_Unmarshal : list byte -> value -> value * option error;
  yaml_UnmarshalStringMap :
    list byte -> gmap string value -> gmap string value * option error
}.

Definition YamlCodec `{Yaml} : Codec :=
  {| Codec_Name := "yaml";
     Unmarshal := yaml_Unmarshal;
     UnmarshalStringMap := yaml_UnmarshalStringMap |}.

(** ** The loader and its world *)

(** A [*FrameworkConfig]: the index of the instance in the heap. *)
Definition loc : Type := nat.

(** [type FullConfigLoader struct]: the cache from keys to instances.  The
    [rwl] lock guards accesses that run concurrently; calls are executed
    one after another here, so it has no counterpart. *)
Record FullConfigLoader : Type := {
  configMap : gmap string loc
}.

(** The closure [Load] hands to [yc.p.Watch]: it captures [path] and [key]
    (and the loader). *)
Record WatchFunc : Type := {
  watch_path : string;
  watch_key : string
}.

(** What the package's code reads and writes: the outside world the
    providers read, the provider registry, the instances that escaped to
    the cache or a caller, the loader ([DefaultConfigLoader]), the
    callbacks registered with providers, each with the name of the provider
    that keeps it, and standard output. *)
Record World (Env : Type) : Type := {
  env : Env;
  providers : gmap string (DataProvider Env);
  heap : list (FrameworkConfig Env);
  loader : FullConfigLoader;
  watchers : list (string * WatchFunc);
  stdout : list string
}.
Arguments env {Env} _.
Arguments providers {Env} _.
Arguments heap {Env} _.
Arguments loader {Env} _.
Arguments watchers {Env} _.
Arguments stdout {Env} _.

Section Loader.
Context {Env : Type} `{Yaml}.
Implicit Types (w : World Env) (yc : FrameworkConfig Env).

(** [type LoadOption func(c *FrameworkConfig)] *)
Definition LoadOption : Type := FrameworkConfig Env -> FrameworkConfig Env.

(** Modelled from the spec: [GetProvider] is defined outside
    [default.go]; it is the provider registry's
    [Lookup(name) -> capability or not-found]. *)
Definition GetProvider w (name : string) : option (DataProvider Env) :=
  providers w !! name.

Definition newFullConfig w (path : string) : FrameworkConfig Env :=
  {| p := GetProvider w "file";
     unmarshedData := VNil;
     path := path;
     decoder := Some YamlCodec;
     rawData := [] |}.

(** [yc := newFullConfig(path); for _, o := range opts { o(yc) }] *)
Definition resolve w (path : string) (opts : list LoadOption) : FrameworkConfig Env :=
  foldl (fun yc o => o yc) (newFullConfig w path) opts.

(** [fmt.Sprintf("%s.%s.%s", decoderName, providerName, path)] *)
Definition Sprintf_key (decoderName providerName path : string) : string :=
  decoderName ++ "." ++ providerName ++ "." ++ path.

(** [key := fmt.Sprintf("%s.%s.%s", yc.decoder.Name(), yc.p.Name(), path)] *)
Definition cache_key yc (path : string) : outcome string :=
  decoderName <~ invoke (decoder yc) Codec_Name ;;
  providerName <~ invoke (p yc) Provider_Name ;;
  Returns (Sprintf_key decoderName providerName path).

Definition set_loader w (l : FullConfigLoader) : World Env :=
  {| env := env w; providers := providers w; heap := heap w;
     loader := l; watchers := watchers w; stdout := stdout w |}.

(** [loader.configMap[key] = yc]: the instance escapes to the heap, and
    the cache entry of [key] points to it. *)
Definition store w yc (key : string) : World Env * loc :=
  let l := length (heap w) in
  ({| env := env w; providers := providers w;
      heap := heap w ++ [ yc ];
      loader := {| configMap := <[ key := l ]> (configMap (loader w)) |};
      watchers := watchers w;
      stdout := stdout w |}, l).

(** [provider.Watch(f)]: the provider keeps the callback. *)
Definition Watch w (provider : DataProvider Env) (f : WatchFunc) : World Env :=
  {| env := env w; providers := providers w; heap := heap w;
     loader := loader w;
     watchers := watchers w ++ [ (Provider_Name provider, f) ];
     stdout := stdout w |}.

(** The world after [yc] has been stored under [key] and its callback
    registered with [provider]. *)
Definition store_and_watch w yc (key path : string) (provider : DataProvider Env)
  : World Env :=
  Watch (store w yc key).1 provider {| watch_path := path; watch_key := key |}.

(** [(loader *FullConfigLoader) Load(path, opts...) (Config, error)] *)
Definition FullConfigLoader_Load w (path : string) (opts : list LoadOption)
  : outcome (World Env * result loc) :=
  let yc := resolve w path opts in
  match decoder yc with
  | None => Returns (w, Err ErrCodecNotExist)
  | Some _ =>
      match p yc with
      | None => Returns (w, Err ErrProviderNotExist)
      | Some _ =>
          key <~ cache_key yc path ;;
          match configMap (loader w) !! key with
          | Some c => Returns (w, Ok c)
          | None =>
              loaded <~ FrameworkConfig_Load (env w) yc ;;
              match loaded.2 with
              | Some err => Returns (w, Err err)
              | None =>
                  let yc := loaded.1 in
                  let stored := store w yc key in
                  w' <~ invoke (p yc)
                          (fun provider =>
                             Watch stored.1 provider
                               {| watch_path := path; watch_key := key |}) ;;
                  Returns (w', Ok stored.2)
              end
          end
      end
  end.

Definition set_heap w (h : list (FrameworkConfig Env)) (printed : list string)
  : World Env :=
  {| env := env w; providers := providers w; heap := h;
     loader := loader w; watchers := watchers w;
     stdout := stdout w ++ printed |}.

(** [config.Reload()] on the instance a cache entry points to. *)
Definition reload_at w (l : loc) : outcome (World Env) :=
  reloaded <~ obind (invoke (heap w !! l) id)
                (FrameworkConfig_Reload (env w)) ;;
  Returns (set_heap w (<[ l := reloaded.1 ]> (heap w)) reloaded.2).

(** [(loader *FullConfigLoader) Reload(path, opts...) error] *)
Definition FullConfigLoader_Reload w (path : string) (opts : list LoadOption)
  : outcome (World Env * option error) :=
  let yc := resolve w path opts in
  key <~ cache_key yc path ;;
  match configMap (loader w) !! key with
  | Some config =>
      w' <~ reload_at w config ;;
      Returns (w', None)
  | None => Returns (w, Some ErrConfigNotExist)
  end.

(** The body of the closure registered by [Load], called by a provider
    with [(p, data)]: [if p == path { delete(loader.configMap, key) }]. *)
Definition run_watch (f : WatchFunc) (p : string) (data : list byte)
    (l : FullConfigLoader) : FullConfigLoader :=
  if String.eqb p (watch_path f)
  then {| configMap := delete (watch_key f) (configMap l) |}
  else l.

Definition newFullConfigLoad : FullConfigLoader := {| configMap := ∅ |}.
End Loader.

(** ** Runs of the package *)

Section Runs.
Context {Env : Type} `{Yaml}.
Implicit Types (w : World Env).

(** What can happen to a world: a call of the loader, a call of [Load]
    or [Reload] on an instance a caller holds, a provider calling one of
    the callbacks registered with it, a change of the outside world, and
    the registration of a provider. *)
Inductive event : Type :=
  | CallLoad (path : string) (opts : list (@LoadOption Env))
  | CallReload (path : string) (opts : list (@LoadOption Env))
  | CallInstanceLoad (l : loc)
  | CallInstanceReload (l : loc)
  | Notify (i : nat) (p : string) (data : list byte)
  | Outside (env' : Env)
  | RegisterProvider (provider : DataProvider Env).

(** [c.Load()] on the instance at [l]; the error goes to the caller. *)
Definition load_at w (l : loc) : outcome (World Env) :=
  loaded <~ obind (invoke (heap w !! l) id)
              (FrameworkConfig_Load (env w)) ;;
  Returns (set_heap w (<[ l := loaded.1 ]> (heap w)) []).

Definition notify w (i : nat) (p : string) (data : list byte) : World Env :=
  match watchers w !! i with
  | Some (_, f) => set_loader w (run_watch f p data (loader w))
  | None => w
  end.

Definition exec w (ev : event) : outcome (World Env) :=
  match ev with
  | CallLoad path opts =>
      r <~ FullConfigLoader_Load w path opts ;; Returns r.1
  | CallReload path opts =>
      r <~ FullConfigLoader_Reload w path opts ;; Returns r.1
  | CallInstanceLoad l => load_at w l
  | CallInstanceReload l => reload_at w l
  | Notify i p data => Returns (notify w i p data)
  | Outside env' =>
      Returns {| env := env'; providers := providers w; heap := heap w;
                 loader := loader w; watchers := watchers w;
                 stdout := stdout w |}
  | RegisterProvider provider =>
      Returns {| env := env w;
                 providers := <[ Provider_Name provider := provider ]> (providers w);
                 heap := heap w; loader := loader w;
                 watchers := watchers w; stdout := stdout w |}
  end.

(** The event deletes the cache entry of [key]: a callback registered
    for [key] is called with the path it watches. *)
Definition evicts w (ev : event) (key : string) : Prop :=
  match ev with
  | Notify i p data =>
      exists name f,
        watchers w !! i = Some (name, f) /\ watch_key f = key /\ p = watch_path f
  | _ => False
  end.

(** [run_keeping key w w']: the package goes from [w] to [w'] through
    events none of which evicts [key]. *)
Inductive run_keeping (key : string) : World Env -> World Env -> Prop :=
  | run_done w : run_keeping key w w
  | run_step w ev w' w'' :
      exec w ev = Returns w' ->
      ~ evicts w ev key ->
      run_keeping key w' w'' ->
      run_keeping key w w''.

(** Any run. *)
Inductive run : World Env -> World Env -> Prop :=
  | run_nil w : run w w
  | run_cons w ev w' w'' :
      exec w ev = Returns w' -> run w' w'' -> run w w''.

(** The world at process start: nothing loaded, nothing registered by
    the package itself. *)
Definition initial (e : Env) (registry : gmap string (DataProvider Env)) : World Env :=
  {| env := e; providers := registry; heap := [];
     loader := newFullConfigLoad; watchers := []; stdout := [] |}.

(** Every cache entry points to an instance, and every instance that
    escaped has a provider and a decoder. *)
Definition well_formed w : Prop :=
  (forall key l, configMap (loader w) !! key = Some l -> l < length (heap w)) /\
  Forall (fun c => is_Some (p c) /\ is_Some (decoder c)) (heap w).
End Runs.

(** ** The lookup as the specification words it *)

Section Navigation.
Context `{Cast}.

(** A node is a mapping when it is a map of either key representation;
    an interface-keyed map is read through the strings of its keys. *)
Definition mapping_of (node : value) : option (gmap string value) :=
  match node with
  | VStrMap m => Some m
  | VIfaceMap entries => Some (stringify_keys entries)
  | _ => None
  end.

(** Navigation from a node along the segments: it fails when the
    current node is not a mapping or the segment is absent; the value
    found at the last segment is the result; otherwise it goes on from
    the value found. *)
Fixpoint navigate (node : value) (segments : list string) : result value :=
  match segments with
  | [] => Err ErrConfigNotExist
  | segment :: rest =>
      match mapping_of node with
      | None => Err ErrConfigNotExist
      | Some m =>
          match m !! segment with
          | None => Err ErrConfigNotExist
          | Some found =>
              if decide (rest = []) then Ok found else navigate found rest
          end
      end
  end.

(** [resolves node segments v]: every segment but the last resolves to a
    mapping, and the last is present, with value [v]. *)
Inductive resolves : value -> list string -> value -> Prop :=
  | resolves_last node m segment v :
      mapping_of node = Some m ->
      m !! segment = Some v ->
      resolves node [ segment ] v
  | resolves_next node m segment next rest v :
      mapping_of node = Some m ->
      m !! segment = Some next ->
      rest <> [] ->
      resolves next rest v ->
      resolves node (segment :: rest) v.
End Navigation.

(** What a typed getter computes from the lookup and the coercion to its
    type: the coerced value when the key resolves and the coercion
    succeeds, the default otherwise. *)
Definition coerced_or_default {A} (found : result value)
    (coerce : value -> result A) (defaultValue : A) : A :=
  match found with
  | Ok v =>
      match coerce v with
      | Ok x => x
      | Err _ => defaultValue
      end
  | Err _ => defaultValue
  end.

(** ** Concrete collaborators

    Implementations of the interfaces above, to run the package on
    concrete documents: a fragment of [cast], a provider reading files, a
    codec for [name=text] lines, and a YAML decoder for the empty
    document. *)

Definition is_digit (ch : ascii) : bool :=
  let n := nat_of_ascii ch in (48 <=? n)%nat && (n <=? 57)%nat.

Fixpoint digits (s : string) (acc : Z) : option Z :=
  match s with
  | EmptyString => Some acc
  | String ch rest =>
      if is_digit ch
      then digits rest (10 * acc + Z.of_nat (nat_of_ascii ch - 48))%Z
      else None
  end.

(** A decimal numeral without sign and without a leading zero ([0] itself
    apart): on these [strconv.ParseInt(s, 0, 0)] reads base ten. *)
Definition numeral (s : string) : option Z :=
  match s with
  | EmptyString => None
  | String ch rest =>
      if Ascii.eqb ch "0" && negb (String.eqb rest "") then None
      else digits s 0
  end.

Definition ParseInt (s : string) : option Z :=
  match s with
  | String "-" rest => Z.opp <$> numeral rest
  | String "+" rest => numeral rest
  | _ => numeral s
  end.

(** [strconv.ParseBool] *)
Definition ParseBool (s : string) : option bool :=
  if bool_decide (s ∈ [ "1"; "t"; "T"; "TRUE"; "true"; "True" ]) then Some true
  else if bool_decide (s ∈ [ "0"; "f"; "F"; "FALSE"; "false"; "False" ]) then Some false
  else None.

(** Go's conversion of an integer to a signed or an unsigned type of
    [bits] bits keeps the low [bits] bits. *)
Definition wrap_unsigned (bits n : Z) : Z := (n mod 2 ^ bits)%Z.
Definition wrap_signed (bits n : Z) : Z :=
  ((n + 2 ^ (bits - 1)) mod 2 ^ bits - 2 ^ (bits - 1))%Z.

Definition unable_to_cast : error := errorString "unable to cast value".

Section CastFragment.
(** [jsonStringToObject], which [cast.ToStringMap] applies to a string. *)
Variable jsonStringToObject : string -> gmap string value.

(** The integer a value stands for, before it is brought to the width
    of the requested type.  Floats are outside the fragment. *)
Definition integer_of (i : value) : result Z :=
  match i with
  | VInt n | VInt32 n | VInt64 n | VUint n | VUint32 n | VUint64 n => Ok n
  | VBool b => Ok (if b then 1 else 0)%Z
  | VNil => Ok 0%Z
  | VString s =>
      match ParseInt s with
      | Some n => Ok n
      | None => Err unable_to_cast
      end
  | _ => Err unable_to_cast
  end.

Definition to_signed (same : value -> option Z) (bits : Z) (i : value) : result Z :=
  match same i with
  | Some n => Ok n
  | None =>
      match integer_of i with
      | Ok n => Ok (wrap_signed bits n)
      | Err e => Err e
      end
  end.

Definition to_unsigned (same : value -> option Z) (bits : Z) (i : value) : result Z :=
  match same i with
  | Some n => Ok n
  | None =>
      match integer_of i with
      | Ok n => if (n <? 0)%Z then Err unable_to_cast else Ok (wrap_unsigned bits n)
      | Err e => Err e
      end
  end.

Definition to_bool (i : value) : result bool :=
  match i with
  | VBool b => Ok b
  | VNil => Ok false
  | VInt n | VInt32 n | VInt64 n | VUint n | VUint32 n | VUint64 n =>
      Ok (negb (n =? 0)%Z)
  | VString s =>
      match ParseBool s with
      | Some b => Ok b
      | None => Err unable_to_cast
      end
  | _ => Err unable_to_cast
  end.

Definition to_string (i : value) : result string :=
  match i with
  | VString s => Ok s
  | VBool b => Ok (if b then "true" else "false")
  | VInt n | VInt32 n | VInt64 n | VUint n | VUint32 n | VUint64 n =>
      Ok (pretty n)
  | VNil => Ok ""
  | _ => Err unable_to_cast
  end.

Definition to_string_map (i : value) : gmap string value :=
  match i with
  | VIfaceMap entries =>
      stringify_keys_with (fun k => or_zero "" (to_string k)) entries
  | VStrMap m => m
  | VString s => jsonStringToObject s
  | _ => ∅
  end.

(** The fragment of [cast] on booleans, integers, strings holding
    decimal numerals, [nil] and maps. *)
Definition cast_fragment : Cast :=
  {| ToBoolE := to_bool;
     ToStringE := to_string;
     ToIntE := to_signed (fun i => match i with VInt n => Some n | _ => None end) 64;
     ToInt32E := to_signed (fun i => match i with VInt32 n => Some n | _ => None end) 32;
     ToInt64E := to_signed (fun i => match i with VInt64 n => Some n | _ => None end) 64;
     ToUintE := to_unsigned (fun i => match i with VUint n => Some n | _ => None end) 64;
     ToUint32E := to_unsigned (fun i => match i with VUint32 n => Some n | _ => None end) 32;
     ToUint64E := to_unsigned (fun i => match i with VUint64 n => Some n | _ => None end) 64;
     ToFloat64E := fun i => match i with VFloat64 x => Ok x | _ => Err unable_to_cast end;
     ToFloat32E := fun i => match i with VFloat32 x => Ok x | _ => Err unable_to_cast end;
     ToStringMap := to_string_map |}.
End CastFragment.

(** A string is never a JSON object: the fragment with no JSON decoder. *)
Definition plain_cast : Cast := cast_fragment (fun _ => ∅).

(** A file system, and the provider that reads it. *)
Definition Files : Type := gmap string (list byte).

Definition FileProvider : DataProvider Files :=
  {| Provider_Name := "file";
     Read := fun fs path =>
       match fs !! path with
       | Some data => Ok data
       | None => Err (errorString ("open " ++ path ++ ": no such file or directory"))
       end |}.

Definition newline : ascii := "010"%char.
Definition equals : ascii := "="%char.

(** One [name=text] entry per line; a line that is not of this form stops
    the decoding with an error, and the entries before it stay. *)
Fixpoint decode_lines (lines : list string) (m : gmap string value)
  : gmap string value * option error :=
  match lines with
  | [] => (m, None)
  | line :: rest =>
      if String.eqb line "" then decode_lines rest m
      else match Split line equals with
           | [ name; text ] => decode_lines rest (<[ name := VString text ]> m)
           | _ => (m, Some (errorString ("properties: malformed line " ++ line)))
           end
  end.

Definition PropertiesCodec : Codec :=
  {| Codec_Name := "properties";
     Unmarshal := fun data out =>
       let m := match out with VStrMap m => m | _ => ∅ end in
       let decoded := decode_lines (Split (string_of_list_byte data) newline) m in
       (VStrMap decoded.1, decoded.2);
     UnmarshalStringMap := fun data out =>
       decode_lines (Split (string_of_list_byte data) newline) out |}.

(** [yaml.Unmarshal] leaves its target alone on the empty document and
    returns [nil]; this decoder knows no other document. *)
Definition yaml_of_empty : Yaml :=
  {| yaml_Unmarshal := fun data out =>
       match data with
       | [] => (out, None)
       | _ => (out, Some (errorString "yaml: unsupported document"))
       end;
     yaml_UnmarshalStringMap := fun data out =>
       match data with
       | [] => (out, None)
       | _ => (out, Some (errorString "yaml: unsupported document"))
       end |}.

(** The options of the examples: what [WithCodec] and [WithProvider] do
    to the instance under construction. *)
Definition use_codec {Env} (d : option Codec) : @LoadOption Env :=
  fun yc => {| p := p yc; unmarshedData := unmarshedData yc; path := path yc;
               decoder := d; rawData := rawData yc |}.

Definition use_provider {Env} (provider : option (DataProvider Env)) : @LoadOption Env :=
  fun yc => {| p := provider; unmarshedData := unmarshedData yc; path := path yc;
               decoder := decoder yc; rawData := rawData yc |}.

(** ** Example documents and worlds *)

Definition bytes_of (s : string) : list byte := list_byte_of_string s.

(** The document [{"server": {"port": "8080"}}]. *)
Definition server_document : value :=
  VStrMap {[ "server" := VStrMap {[ "port" := VString "8080" ]} ]}.

(** The document [{"a": null}]. *)
Definition null_document : value := VStrMap {[ "a" := VNil ]}.

(** The document [{"a": {"b": 5}}]. *)
Definition leaf_document : value :=
  VStrMap {[ "a" := VStrMap {[ "b" := VInt 5 ]} ]}.

(** An instance reading [app.properties] through the file provider, with
    the given raw bytes and tree. *)
Definition instance_with (data : list byte) (tree : value) : FrameworkConfig Files :=
  {| p := Some FileProvider; unmarshedData := tree; path := "app.properties";
     decoder := Some PropertiesCodec; rawData := data |}.

(** A loaded instance: [name=old] was read and decoded. *)
Definition loaded_instance : FrameworkConfig Files :=
  instance_with (bytes_of "name=old") (VStrMap {[ "name" := VString "old" ]}).

(** The file now holds a line the decoder rejects. *)
Definition broken_files : Files := {[ "app.properties" := bytes_of "name" ]}.

(** The file now holds another well-formed document. *)
Definition updated_files : Files := {[ "app.properties" := bytes_of "name=new" ]}.

Definition good_files : Files := {[ "app.properties" := bytes_of "name=old" ]}.

(** A process with the file provider registered, and one without any. *)
Definition file_world (fs : Files) : World Files :=
  initial fs {[ "file" := FileProvider ]}.

Definition bare_world : World Files := initial ∅ ∅.

Definition properties_options : list (@LoadOption Files) :=
  [ use_codec (Some PropertiesCodec) ].

(** The world [f] leads to, or [w] itself if [f] panics. *)
Definition after {Env A} (w : World Env) (o : outcome A) (world_of : A -> World Env)
  : World Env :=
  match o with
  | Returns a => world_of a
  | Panics _ => w
  end.

Section ExampleWorlds.
Local Existing Instance yaml_of_empty.

(** [Load("app.properties", WithCodec(properties))] on a fresh process. *)
Definition world_loaded : World Files :=
  after (file_world good_files)
    (FullConfigLoader_Load (file_world good_files) "app.properties" properties_options)
    fst.

(** ... then the file changes on disk and is reloaded, and the provider
    calls the registered callback for another path. *)
Definition later_events : list (@event Files) :=
  [ Outside updated_files;
    CallReload "app.properties" properties_options;
    Notify 0 "other.properties" [] ].

(** The world after the first [n] of these events. *)
Definition world_after (n : nat) : World Files :=
  foldl (fun w ev => after w (exec w ev) id) world_loaded (take n later_events).

Definition world_later : World Files := world_after 3.
End ExampleWorlds.

(** ** The rest of the package *)

(** [(c *FrameworkConfig) Unmarshal(out interface{}) error], called with
    [out] a [*interface{}] whose content is [out]: what the target holds
    after the call, and the error. *)
Definition FrameworkConfig_Unmarshal {Env : Type} (c : FrameworkConfig Env)
    (out : value) : outcome (value * option error) :=
  invoke (decoder c) (fun d => Unmarshal d (rawData c) out).

(** [encoding/json] and [github.com/BurntSushi/toml], as [Yaml] above. *)
Class Json : Type := {
  json_Unmarshal : list byte -> value -> value * option error;
  json_UnmarshalStringMap :
    list byte -> gmap string value -> gmap string value * option error
}.

Class Toml : Type := {
  toml_Unmarshal : list byte -> value -> value * option error;
  toml_UnmarshalStringMap :
    list byte -> gmap string value -> gmap string value * option error
}.

Definition JSONCodec `{Json} : Codec :=
  {| Codec_Name := "json";
     Unmarshal := json_Unmarshal;
     UnmarshalStringMap := json_UnmarshalStringMap |}.

Definition TomlCodec `{Toml} : Codec :=
  {| Codec_Name := "toml";
     Unmarshal := toml_Unmarshal;
     UnmarshalStringMap := toml_UnmarshalStringMap |}.

(** ** Notions used in the statements below *)

(** [strings.Contains(s, sep)] for a one-byte separator. *)
Fixpoint Contains (s : string) (sep : ascii) : bool :=
  match s with
  | EmptyString => false
  | String ch rest => Ascii.eqb ch sep || Contains rest sep
  end.

(** The dynamic types [findWithDefaultValue] has a case for. *)
Definition primitive (v : value) : bool :=
  match v with
  | VBool _ | VString _ | VInt _ | VInt32 _ | VInt64 _
  | VUint _ | VUint32 _ | VUint64 _ | VFloat64 _ | VFloat32 _ => true
  | _ => false
  end.

(** Two values have the same dynamic type. *)
Definition same_type (a b : value) : bool :=
  match a, b with
  | VNil, VNil | VBool _, VBool _ | VString _, VString _
  | VInt _, VInt _ | VInt32 _, VInt32 _ | VInt64 _, VInt64 _
  | VUint _, VUint _ | VUint32 _, VUint32 _ | VUint64 _, VUint64 _
  | VFloat32 _, VFloat32 _ | VFloat64 _, VFloat64 _
  | VSlice _, VSlice _ | VStrMap _, VStrMap _ | VIfaceMap _, VIfaceMap _ => true
  | _, _ => false
  end.

(** What a lookup of [first ++ "." ++ second] does with the result of the
    lookup of [first]: it goes on in a map of either representation, and
    fails on anything else. *)
Definition descend {Env : Type} `{Cast} (c : FrameworkConfig Env)
    (found : result value) (second : string) : result value :=
  match found with
  | Ok (VStrMap m) => find (set_unmarshedData c (VStrMap m)) second
  | Ok (VIfaceMap entries) => find (set_unmarshedData c (VIfaceMap entries)) second
  | Ok _ => Err ErrConfigNotExist
  | Err e => Err e
  end.

(** A world the package can be in: reached from the start by some run. *)
Definition reachable {Env : Type} `{Yaml} (w : World Env) : Prop :=
  exists e registry, run (initial e registry) w.

(** The file provider under another name. *)
Definition RenamedProvider (name : string) : DataProvider Files :=
  {| Provider_Name := name; Read := Read FileProvider |}.

(** Every cache entry has a callback registered for its key. *)
Definition watched {Env : Type} (w : World Env) : Prop :=
  forall key l,
    configMap (loader w) !! key = Some l ->
    exists i name f, watchers w !! i = Some (name, f) /\ watch_key f = key.

(** The instance at [l] keeps its provider, its decoder and its path
    from [w] to [w']. *)
Definition same_identity {Env : Type} (w w' : World Env) : Prop :=
  forall l c,
    heap w !! l = Some c ->
    exists c', heap w' !! l = Some c' /\
               p c' = p c /\ decoder c' = decoder c /\ path c' = path c.

(** The cache entry of [world_loaded] has been evicted. *)
Definition world_evicted : World Files :=
  notify world_loaded 0 "app.properties" [].

(** A process where [conf.app] was loaded through the file provider. *)
Definition nested_files : Files := {[ "conf.app" := bytes_of "name=old" ]}.

Definition world_nested : World Files :=
  after (file_world nested_files)
    (FullConfigLoader_Load (H := yaml_of_empty) (file_world nested_files)
       "conf.app" properties_options)
    fst.

Definition renamed_options : list (@LoadOption Files) :=
  [ use_codec (Some PropertiesCodec);
    use_provider (Some (RenamedProvider "file.conf")) ].

(** [json.Unmarshal] rejects the empty document; this decoder knows no
    other document.  The empty document is a TOML document without keys,
    which leaves the target as it is; this decoder knows no other. *)
Definition json_of_empty : Json :=
  {| json_Unmarshal := fun data out =>
       match data with
       | [] => (out, Some (errorString "unexpected end of JSON input"))
       | _ => (out, Some (errorString "json: unsupported document"))
       end;
     json_UnmarshalStringMap := fun data out =>
       match data with
       | [] => (out, Some (errorString "unexpected end of JSON input"))
       | _ => (out, Some (errorString "json: unsupported document"))
       end |}.

Definition toml_of_empty : Toml :=
  {| toml_Unmarshal := fun data out =>
       match data with
       | [] => (out, None)
       | _ => (out, Some (errorString "toml: unsupported document"))
       end;
     toml_UnmarshalStringMap := fun data out =>
       match data with
       | [] => (out, None)
       | _ => (out, Some (errorString "toml: unsupported document"))
       end |}.

(** ** A fragment of [encoding/json]

    [jsonStringToObject], which [cast.ToStringMap] applies to a string,
    on objects whose members are strings without escapes, written
    without white space: [{"name":"text",...}].  Any other string gives
    the empty map, as an invalid document does. *)

Definition quote : ascii := "034"%char.
Definition backslash : ascii := "092"%char.
Definition comma : ascii := ","%char.
Definition colon : ascii := ":"%char.
Definition closing_brace : ascii := "}"%char.

(** The text between two quotes. *)
Definition unquote (s : string) : option string :=
  match s with
  | String ch rest =>
      if Ascii.eqb ch quote then
        match Split rest quote with
        | [ text; EmptyString ] =>
            if Contains text backslash then None else Some text
        | _ => None
        end
      else None
  | EmptyString => None
  end.

Fixpoint json_members (members : list string) (m : gmap string value)
  : option (gmap string value) :=
  match members with
  | [] => Some m
  | member :: rest =>
      match Split member colon with
      | [ name; text ] =>
          match unquote name, unquote text with
          | Some name, Some text => json_members rest (<[ name := VString text ]> m)
          | _, _ => None
          end
      | _ => None
      end
  end.

Definition json_object (s : string) : gmap string value :=
  match s with
  | String "{" rest =>
      match Split rest closing_brace with
      | [ body; EmptyString ] =>
          let members :=
            if String.eqb body "" then [] else Split body comma in
          default ∅ (json_members members ∅)
      | _ => ∅
      end
  | _ => ∅
  end.

(** The fragment of [cast] with this JSON decoder. *)
Definition json_cast : Cast := cast_fragment json_object.

(** The text [{"a":"b"}], and an instance whose tree is that string: what
    a decoder leaves in [unmarshedData] for a document that is a string
    scalar. *)
Definition json_text : string :=
  "{" ++ String quote ("a" ++ String quote (":" ++ String quote ("b" ++ String quote "}"))).

Definition string_rooted : FrameworkConfig Files :=
  instance_with [] (VString json_text).

(** * Properties *)

(** ** Splitting keys *)

Example Split_abc : Split "a.b.c" dot = [ "a"; "b"; "c" ].
Proof. reflexivity. Qed.

Example Split_empty : Split "" dot = [ "" ].
Proof. reflexivity. Qed.

Example Split_edges : Split ".a..b." dot = [ ""; "a"; ""; "b"; "" ].
Proof. reflexivity. Qed.

Lemma Split_nonempty (s : string) (sep : ascii) : Split s sep <> [].
Proof.
  destruct s as [| ch rest]; simpl; [discriminate |].
  destruct (Ascii.eqb ch sep); [discriminate |].
  destruct (Split rest sep); discriminate.
Qed.

(** Joining the pieces with the separator gives the string back. *)
Lemma Join_Split (s : string) (sep : ascii) : Join (Split s sep) sep = s.
Proof.
  induction s as [| ch rest IH]; simpl; [reflexivity |].
  destruct (Ascii.eqb_spec ch sep) as [-> | _].
  - pose proof (Split_nonempty rest sep) as Hne.
    destruct (Split rest sep) as [| piece pieces]; [contradiction |].
    simpl in *. now rewrite IH.
  - pose proof (Split_nonempty rest sep) as Hne.
    destruct (Split rest sep) as [| piece pieces]; [contradiction |].
    destruct pieces as [| piece' pieces]; simpl in *; now rewrite <- IH.
Qed.

(** ** Lookup *)

Section LookupFacts.
Context {Env : Type} `{CastLaws}.
Implicit Types (c : FrameworkConfig Env) (key : string).

Lemma parseKey_nonempty c key : parseKey c key <> [].
Proof. apply Split_nonempty. Qed.

(** The only error of a lookup is [ErrConfigNotExist]. *)
Lemma search_Err c m subkeys e :
  search c m subkeys = Err e -> e = ErrConfigNotExist.
Proof.
  revert m. induction subkeys as [| subkey rest IH]; intros m; simpl.
  - congruence.
  - destruct (m !! subkey) as [next |]; [| congruence].
    destruct rest as [| subkey' rest']; [congruence |].
    destruct next; try congruence; apply IH.
Qed.

(** [search] from the mapping a node stands for is the navigation of the
    specification from that node. *)
Lemma search_navigate c node m subkeys :
  mapping_of node = Some m ->
  search c m subkeys = navigate node subkeys.
Proof.
  revert node m. induction subkeys as [| subkey rest IH]; intros node m Hm.
  - reflexivity.
  - cbn [search navigate]. rewrite Hm.
    destruct (m !! subkey) as [next |]; [| reflexivity].
    destruct rest as [| subkey' rest']; [reflexivity |].
    rewrite decide_False by discriminate.
    destruct next;
      try (cbn [navigate mapping_of]; reflexivity).
    + now apply IH.
    + rewrite ToStringMap_IfaceMap. now apply IH.
Qed.

Lemma navigate_resolves node segments v :
  navigate node segments = Ok v <-> resolves node segments v.
Proof.
  split.
  - revert node. induction segments as [| segment rest IH]; intros node; simpl.
    + discriminate.
    + destruct (mapping_of node) as [m |] eqn:Hm; [| discriminate].
      destruct (m !! segment) as [found |] eqn:Hfound; [| discriminate].
      destruct (decide (rest = [])) as [-> | Hrest].
      * intros [= ->]. eapply resolves_last; eauto.
      * intros Hnav. eapply resolves_next; eauto.
  - induction 1 as [node m segment v Hm Hv
                   | node m segment next rest v Hm Hnext Hrest _ IH];
      cbn [navigate].
    + rewrite Hm, Hv. now rewrite decide_True.
    + rewrite Hm, Hnext. now rewrite decide_False.
Qed.

(** The root a lookup starts from is read through [cast.ToStringMap]. *)
Lemma ToStringMap_mapping node m :
  mapping_of node = Some m -> ToStringMap node = m.
Proof.
  destruct node; simpl; intros [= <-].
  - apply ToStringMap_StrMap.
  - apply ToStringMap_IfaceMap.
Qed.

Lemma find_navigate c key :
  is_Some (mapping_of (unmarshedData c)) ->
  find c key = navigate (unmarshedData c) (parseKey c key).
Proof.
  intros [m Hm]. unfold find, locateSubkey.
  rewrite (ToStringMap_mapping _ _ Hm). now apply search_navigate.
Qed.

Lemma find_Err c key e : find c key = Err e -> e = ErrConfigNotExist.
Proof. apply search_Err. Qed.

Lemma IsSet_find c key : IsSet c key = is_Ok (find c key).
Proof. unfold IsSet, find. now destruct (locateSubkey _ _). Qed.

(** A lookup in a tree that is [nil] or the empty map finds nothing. *)
Lemma find_unloaded c key :
  unmarshedData c = VNil \/ unmarshedData c = VStrMap ∅ ->
  find c key = Err ErrConfigNotExist.
Proof.
  intros Htree. unfold find, locateSubkey.
  assert (ToStringMap (unmarshedData c) = ∅) as ->.
  { destruct Htree as [-> | ->];
      [apply ToStringMap_nil | apply ToStringMap_StrMap]. }
  pose proof (parseKey_nonempty c key) as Hne.
  destruct (parseKey c key) as [| subkey rest]; [contradiction |].
  simpl. now rewrite lookup_empty.
Qed.
End LookupFacts.

(** ** Typed getters *)

Section GetterFacts.
Context {Env : Type} `{CastLaws}.
Implicit Types (c : FrameworkConfig Env) (key : string).

Local Ltac getter law :=
  intros; unfold coerced_or_default, findWithDefaultValue;
  destruct (find _ _) as [v | e]; cbn;
  [ match goal with |- context [match ?r with Ok _ => _ | Err _ => _ end] =>
      destruct r end |];
  cbn; rewrite ?law; reflexivity.

Lemma GetInt_spec c key d :
  GetInt c key d = coerced_or_default (find c key) ToIntE d.
Proof. unfold GetInt, ToInt. getter ToIntE_int. Qed.

Lemma GetInt32_spec c key d :
  GetInt32 c key d = coerced_or_default (find c key) ToInt32E d.
Proof. unfold GetInt32, ToInt32. getter ToInt32E_int32. Qed.

Lemma GetInt64_spec c key d :
  GetInt64 c key d = coerced_or_default (find c key) ToInt64E d.
Proof. unfold GetInt64, ToInt64. getter ToInt64E_int64. Qed.

Lemma GetUint_spec c key d :
  GetUint c key d = coerced_or_default (find c key) ToUintE d.
Proof. unfold GetUint, ToUint. getter ToUintE_uint. Qed.

Lemma GetUint32_spec c key d :
  GetUint32 c key d = coerced_or_default (find c key) ToUint32E d.
Proof. unfold GetUint32, ToUint32. getter ToUint32E_uint32. Qed.

Lemma GetUint64_spec c key d :
  GetUint64 c key d = coerced_or_default (find c key) ToUint64E d.
Proof. unfold GetUint64, ToUint64. getter ToUint64E_uint64. Qed.

Lemma GetFloat64_spec c key d :
  GetFloat64 c key d = coerced_or_default (find c key) ToFloat64E d.
Proof. unfold GetFloat64, ToFloat64. getter ToFloat64E_float64. Qed.

Lemma GetFloat32_spec c key d :
  GetFloat32 c key d = coerced_or_default (find c key) ToFloat32E d.
Proof. unfold GetFloat32, ToFloat32. getter ToFloat32E_float32. Qed.

Lemma GetBool_spec c key d :
  GetBool c key d = coerced_or_default (find c key) ToBoolE d.
Proof. unfold GetBool, ToBool. getter ToBoolE_bool. Qed.

(** [GetString] returns a string as it is, without calling [cast]. *)
Lemma GetString_spec c key d :
  GetString c key d = coerced_or_default (find c key) ToStringE d.
Proof.
  unfold GetString, coerced_or_default, find.
  destruct (locateSubkey _ _) as [v | e]; [| reflexivity].
  destruct v; try reflexivity. now rewrite ToStringE_string.
Qed.
End GetterFacts.

Lemma cast_fragment_laws (json : string -> gmap string value) :
  @CastLaws (cast_fragment json).
Proof. split; reflexivity. Qed.

(** ** Instance-level [Load] and [Reload] *)

Section InstanceFacts.
Context {Env : Type}.
Implicit Types (c : FrameworkConfig Env) (env : Env).

(** [Load] with a provider and a decoder: the three ways it ends. *)
Lemma FrameworkConfig_Load_read_error env c provider err :
  p c = Some provider ->
  Read provider env (path c) = Err err ->
  FrameworkConfig_Load env c = Returns (c, Some (failed_to_load c err)).
Proof. intros Hp Hread. unfold FrameworkConfig_Load. now rewrite Hp, Hread. Qed.

Lemma FrameworkConfig_Load_decoded env c provider d data :
  p c = Some provider ->
  Read provider env (path c) = Ok data ->
  decoder c = Some d ->
  let decoded := Unmarshal d data (VStrMap ∅) in
  let c' := {| p := p c; unmarshedData := decoded.1; path := path c;
               decoder := decoder c; rawData := data |} in
  FrameworkConfig_Load env c =
  Returns (c', match decoded.2 with
               | Some err => Some (failed_to_parse c err)
               | None => None
               end).
Proof.
  intros Hp Hread Hd. unfold FrameworkConfig_Load.
  rewrite Hp, Hread. cbn. rewrite Hd. cbn.
  destruct (Unmarshal d data (VStrMap ∅)) as [tree [err |]];
    unfold set_unmarshedData, set_rawData, failed_to_parse; cbn;
    now rewrite ?Hp, ?Hd.
Qed.

Lemma FrameworkConfig_Load_no_decoder env c provider data :
  p c = Some provider ->
  Read provider env (path c) = Ok data ->
  decoder c = None ->
  FrameworkConfig_Load env c = Panics nil_dereference.
Proof.
  intros Hp Hread Hd. unfold FrameworkConfig_Load.
  rewrite Hp, Hread. cbn. now rewrite Hd.
Qed.

(** [Load] returns when the instance has a decoder, and never touches
    the provider, the decoder or the path. *)
Lemma FrameworkConfig_Load_returns env c :
  is_Some (decoder c) ->
  exists c' err, FrameworkConfig_Load env c = Returns (c', err).
Proof.
  intros [d Hd]. destruct (p c) as [provider |] eqn:Hp.
  - destruct (Read provider env (path c)) as [data | err] eqn:Hread.
    + rewrite (FrameworkConfig_Load_decoded env c provider d data) by done.
      eauto.
    + rewrite (FrameworkConfig_Load_read_error env c provider err) by done.
      eauto.
  - unfold FrameworkConfig_Load. rewrite Hp. eauto.
Qed.

Lemma FrameworkConfig_Load_frame env c c' err :
  FrameworkConfig_Load env c = Returns (c', err) ->
  p c' = p c /\ decoder c' = decoder c /\ path c' = path c.
Proof.
  unfold FrameworkConfig_Load.
  destruct (p c) as [provider |] eqn:Hp; [| now intros [= <- _]].
  destruct (Read provider env (path c)) as [data | e]; [| now intros [= <- _]].
  cbn. destruct (decoder c) as [d |] eqn:Hd; cbn; [| discriminate].
  destruct (Unmarshal d data (VStrMap ∅)) as [tree [e |]]; cbn;
    now intros [= <- _].
Qed.

(** [Reload]: the four ways it ends. *)
Lemma FrameworkConfig_Reload_no_provider env c :
  p c = None -> FrameworkConfig_Reload env c = Returns (c, []).
Proof. intros Hp. unfold FrameworkConfig_Reload. now rewrite Hp. Qed.

Lemma FrameworkConfig_Reload_read_error env c provider err :
  p c = Some provider ->
  Read provider env (path c) = Err err ->
  FrameworkConfig_Reload env c = Returns (c, [ reload_failed_line c err ]).
Proof. intros Hp Hread. unfold FrameworkConfig_Reload. now rewrite Hp, Hread. Qed.

Lemma FrameworkConfig_Reload_parse_error env c provider d data m err :
  p c = Some provider ->
  Read provider env (path c) = Ok data ->
  decoder c = Some d ->
  UnmarshalStringMap d data ∅ = (m, Some err) ->
  FrameworkConfig_Reload env c = Returns (c, [ parse_failed_line c err ]).
Proof.
  intros Hp Hread Hd Hdec. unfold FrameworkConfig_Reload.
  rewrite Hp, Hread, Hd. cbn. now rewrite Hdec.
Qed.

Lemma FrameworkConfig_Reload_success env c provider d data m :
  p c = Some provider ->
  Read provider env (path c) = Ok data ->
  decoder c = Some d ->
  UnmarshalStringMap d data ∅ = (m, None) ->
  FrameworkConfig_Reload env c =
  Returns ({| p := p c; unmarshedData := VStrMap m; path := path c;
              decoder := decoder c; rawData := data |}, []).
Proof.
  intros Hp Hread Hd Hdec. unfold FrameworkConfig_Reload.
  rewrite Hp, Hread, Hd. cbn. rewrite Hdec.
  unfold set_unmarshedData, set_rawData. cbn. now rewrite Hp, Hd.
Qed.

Lemma FrameworkConfig_Reload_returns env c :
  is_Some (decoder c) ->
  exists c' printed, FrameworkConfig_Reload env c = Returns (c', printed).
Proof.
  intros [d Hd]. unfold FrameworkConfig_Reload.
  destruct (p c) as [provider |]; [| eauto].
  destruct (Read provider env (path c)) as [data | err]; [| eauto].
  rewrite Hd. cbn.
  destruct (UnmarshalStringMap d data ∅) as [m [err |]]; cbn; eauto.
Qed.

Lemma FrameworkConfig_Reload_frame env c c' printed :
  FrameworkConfig_Reload env c = Returns (c', printed) ->
  p c' = p c /\ decoder c' = decoder c /\ path c' = path c.
Proof.
  unfold FrameworkConfig_Reload.
  destruct (p c) as [provider |] eqn:Hp; [| now intros [= <- _]].
  destruct (Read provider env (path c)) as [data | e]; [| now intros [= <- _]].
  destruct (decoder c) as [d |] eqn:Hd; cbn; [| discriminate].
  destruct (UnmarshalStringMap d data ∅) as [m [e |]]; cbn;
    now intros [= <- _].
Qed.
End InstanceFacts.

(** ** The loader *)

Section LoaderFacts.
Context {Env : Type} `{Yaml}.
Implicit Types (w : World Env) (yc : FrameworkConfig Env)
  (opts : list (@LoadOption Env)).

Lemma cache_key_resolved yc path d provider :
  decoder yc = Some d ->
  p yc = Some provider ->
  cache_key yc path =
  Returns (Sprintf_key (Codec_Name d) (Provider_Name provider) path).
Proof. intros Hd Hp. unfold cache_key. now rewrite Hd, Hp. Qed.

Lemma cache_key_nil yc path :
  decoder yc = None \/ p yc = None ->
  cache_key yc path = Panics nil_dereference.
Proof.
  intros Hnil. unfold cache_key.
  destruct (decoder yc) as [d |]; cbn; [| reflexivity].
  destruct Hnil as [? | ->]; [discriminate | reflexivity].
Qed.

(** The ways the top-level [Load] ends. *)
Lemma FullConfigLoader_Load_no_decoder w path opts :
  decoder (resolve w path opts) = None ->
  FullConfigLoader_Load w path opts = Returns (w, Err ErrCodecNotExist).
Proof. intros Hd. unfold FullConfigLoader_Load. now rewrite Hd. Qed.

Lemma FullConfigLoader_Load_no_provider w path opts d :
  decoder (resolve w path opts) = Some d ->
  p (resolve w path opts) = None ->
  FullConfigLoader_Load w path opts = Returns (w, Err ErrProviderNotExist).
Proof. intros Hd Hp. unfold FullConfigLoader_Load. now rewrite Hd, Hp. Qed.

Lemma FullConfigLoader_Load_hit w path opts d provider l :
  decoder (resolve w path opts) = Some d ->
  p (resolve w path opts) = Some provider ->
  configMap (loader w)
    !! Sprintf_key (Codec_Name d) (Provider_Name provider) path = Some l ->
  FullConfigLoader_Load w path opts = Returns (w, Ok l).
Proof.
  intros Hd Hp Hhit. unfold FullConfigLoader_Load.
  rewrite Hd, Hp, (cache_key_resolved _ _ _ _ Hd Hp). cbn. now rewrite Hhit.
Qed.

Lemma FullConfigLoader_Load_miss_error w path opts d provider yc' err :
  decoder (resolve w path opts) = Some d ->
  p (resolve w path opts) = Some provider ->
  configMap (loader w)
    !! Sprintf_key (Codec_Name d) (Provider_Name provider) path = None ->
  FrameworkConfig_Load (env w) (resolve w path opts) = Returns (yc', Some err) ->
  FullConfigLoader_Load w path opts = Returns (w, Err err).
Proof.
  intros Hd Hp Hmiss Hload. unfold FullConfigLoader_Load.
  rewrite Hd, Hp, (cache_key_resolved _ _ _ _ Hd Hp). cbn.
  now rewrite Hmiss, Hload.
Qed.

Lemma FullConfigLoader_Load_miss_stored w path opts d provider yc' :
  decoder (resolve w path opts) = Some d ->
  p (resolve w path opts) = Some provider ->
  let key := Sprintf_key (Codec_Name d) (Provider_Name provider) path in
  configMap (loader w) !! key = None ->
  FrameworkConfig_Load (env w) (resolve w path opts) = Returns (yc', None) ->
  FullConfigLoader_Load w path opts =
  Returns (store_and_watch w yc' key path provider,
           Ok (length (heap w))).
Proof.
  intros Hd Hp key Hmiss Hload. unfold FullConfigLoader_Load.
  rewrite Hd, Hp, (cache_key_resolved _ _ _ _ Hd Hp). cbn.
  fold key. rewrite Hmiss, Hload. cbn.
  destruct (FrameworkConfig_Load_frame _ _ _ _ Hload) as (-> & _ & _).
  now rewrite Hp.
Qed.

(** Every call of the top-level [Load] is one of the five above. *)
Lemma FullConfigLoader_Load_cases w path opts :
  let yc := resolve w path opts in
  (decoder yc = None /\
   FullConfigLoader_Load w path opts = Returns (w, Err ErrCodecNotExist)) \/
  (is_Some (decoder yc) /\ p yc = None /\
   FullConfigLoader_Load w path opts = Returns (w, Err ErrProviderNotExist)) \/
  (exists d provider,
     decoder yc = Some d /\ p yc = Some provider /\
     let key := Sprintf_key (Codec_Name d) (Provider_Name provider) path in
     (exists l, configMap (loader w) !! key = Some l /\
                FullConfigLoader_Load w path opts = Returns (w, Ok l)) \/
     (exists yc' err,
        configMap (loader w) !! key = None /\
        FrameworkConfig_Load (env w) yc = Returns (yc', Some err) /\
        FullConfigLoader_Load w path opts = Returns (w, Err err)) \/
     (exists yc',
        configMap (loader w) !! key = None /\
        FrameworkConfig_Load (env w) yc = Returns (yc', None) /\
        FullConfigLoader_Load w path opts =
        Returns (store_and_watch w yc' key path provider,
                 Ok (length (heap w))))).
Proof.
  intros yc.
  destruct (decoder yc) as [d |] eqn:Hd.
  2: { left. split; [done |]. now apply FullConfigLoader_Load_no_decoder. }
  right. destruct (p yc) as [provider |] eqn:Hp.
  2: { left. repeat split; [eauto |]. eapply FullConfigLoader_Load_no_provider; eassumption. }
  right. exists d, provider. do 2 (split; [done |]). intros key.
  destruct (configMap (loader w) !! key) as [l |] eqn:Hkey.
  { left. exists l. split; [done |]. eapply FullConfigLoader_Load_hit; eassumption. }
  right.
  destruct (FrameworkConfig_Load_returns (env w) yc) as (yc' & err & Hload);
    [rewrite Hd; eauto |].
  destruct err as [err |].
  - left. exists yc', err. do 2 (split; [done |]).
    eapply FullConfigLoader_Load_miss_error; eassumption.
  - right. exists yc'. do 2 (split; [done |]).
    eapply FullConfigLoader_Load_miss_stored; eassumption.
Qed.

(** [Load] never panics. *)
Lemma FullConfigLoader_Load_returns w path opts :
  exists w' r, FullConfigLoader_Load w path opts = Returns (w', r).
Proof.
  destruct (FullConfigLoader_Load_cases w path opts)
    as [[_ ->] | [(_ & _ & ->) | (d & provider & _ & _ & Hc)]]; eauto.
  destruct Hc as [(l & _ & ->) | [(yc' & err & _ & _ & ->) | (yc' & _ & _ & ->)]];
    eauto.
Qed.

(** A failed [Load] leaves the whole world as it was. *)
Lemma FullConfigLoader_Load_Err w path opts w' err :
  FullConfigLoader_Load w path opts = Returns (w', Err err) -> w' = w.
Proof.
  destruct (FullConfigLoader_Load_cases w path opts)
    as [[_ ->] | [(_ & _ & ->) | (d & provider & _ & _ & Hc)]];
    try now intros [= <-].
  destruct Hc as [(l & _ & ->) | [(yc' & e & _ & _ & ->) | (yc' & _ & _ & ->)]];
    now intros [=].
Qed.

(** After a successful [Load] the returned instance is the cache entry
    of the key. *)
Lemma FullConfigLoader_Load_Ok w path opts w' l :
  FullConfigLoader_Load w path opts = Returns (w', Ok l) ->
  exists d provider,
    decoder (resolve w path opts) = Some d /\
    p (resolve w path opts) = Some provider /\
    configMap (loader w')
      !! Sprintf_key (Codec_Name d) (Provider_Name provider) path = Some l.
Proof.
  destruct (FullConfigLoader_Load_cases w path opts)
    as [[_ ->] | [(_ & _ & ->) | (d & provider & Hd & Hp & Hc)]];
    try discriminate.
  intros Hload. exists d, provider. do 2 (split; [done |]).
  destruct Hc as [(l' & Hhit & Heq) | [(yc' & e & _ & _ & Heq) | (yc' & _ & _ & Heq)]];
    rewrite Heq in Hload; try discriminate.
  - now injection Hload as <- <-.
  - injection Hload as <- <-. cbn. apply lookup_insert_eq.
Qed.

(** [Load] never removes or replaces a cache entry. *)
Lemma FullConfigLoader_Load_keeps w path opts w' r key l :
  FullConfigLoader_Load w path opts = Returns (w', r) ->
  configMap (loader w) !! key = Some l ->
  configMap (loader w') !! key = Some l.
Proof.
  intros Hload Hkey.
  destruct (FullConfigLoader_Load_cases w path opts)
    as [[_ Heq] | [(_ & _ & Heq) | (d & provider & Hd & Hp & Hc)]];
    try (rewrite Heq in Hload; now injection Hload as <- _).
  destruct Hc as [(l' & _ & Heq) | [(yc' & e & _ & _ & Heq) | (yc' & Hmiss & _ & Heq)]];
    rewrite Heq in Hload; injection Hload as <- _; try done.
  cbn. rewrite lookup_insert_ne; [done |]. intros <-. congruence.
Qed.
End LoaderFacts.

Section ReloadFacts.
Context {Env : Type} `{Yaml}.
Implicit Types (w : World Env) (c : FrameworkConfig Env)
  (opts : list (@LoadOption Env)).

Lemma reload_at_instance w l c c' printed :
  heap w !! l = Some c ->
  FrameworkConfig_Reload (env w) c = Returns (c', printed) ->
  reload_at w l = Returns (set_heap w (<[ l := c' ]> (heap w)) printed).
Proof. intros Hl Hre. unfold reload_at. rewrite Hl. cbn. now rewrite Hre. Qed.

Lemma load_at_instance w l c c' err :
  heap w !! l = Some c ->
  FrameworkConfig_Load (env w) c = Returns (c', err) ->
  load_at w l = Returns (set_heap w (<[ l := c' ]> (heap w)) []).
Proof. intros Hl Hre. unfold load_at. rewrite Hl. cbn. now rewrite Hre. Qed.

Lemma reload_at_inv w l w' :
  reload_at w l = Returns w' ->
  exists c c' printed,
    heap w !! l = Some c /\
    FrameworkConfig_Reload (env w) c = Returns (c', printed) /\
    w' = set_heap w (<[ l := c' ]> (heap w)) printed.
Proof.
  unfold reload_at. destruct (heap w !! l) as [c |]; cbn; [| discriminate].
  destruct (FrameworkConfig_Reload (env w) c) as [[c' printed] |] eqn:Hre;
    cbn; [| discriminate].
  intros [= <-]. eauto 6.
Qed.

Lemma load_at_inv w l w' :
  load_at w l = Returns w' ->
  exists c c' err,
    heap w !! l = Some c /\
    FrameworkConfig_Load (env w) c = Returns (c', err) /\
    w' = set_heap w (<[ l := c' ]> (heap w)) [].
Proof.
  unfold load_at. destruct (heap w !! l) as [c |]; cbn; [| discriminate].
  destruct (FrameworkConfig_Load (env w) c) as [[c' err] |] eqn:Hre;
    cbn; [| discriminate].
  intros [= <-]. eauto 6.
Qed.

(** The ways the top-level [Reload] ends. *)
Lemma FullConfigLoader_Reload_nil w path opts :
  decoder (resolve w path opts) = None \/ p (resolve w path opts) = None ->
  FullConfigLoader_Reload w path opts = Panics nil_dereference.
Proof.
  intros Hnil. unfold FullConfigLoader_Reload.
  now rewrite (cache_key_nil _ _ Hnil).
Qed.

Lemma FullConfigLoader_Reload_absent w path opts d provider :
  decoder (resolve w path opts) = Some d ->
  p (resolve w path opts) = Some provider ->
  configMap (loader w)
    !! Sprintf_key (Codec_Name d) (Provider_Name provider) path = None ->
  FullConfigLoader_Reload w path opts = Returns (w, Some ErrConfigNotExist).
Proof.
  intros Hd Hp Hmiss. unfold FullConfigLoader_Reload.
  rewrite (cache_key_resolved _ _ _ _ Hd Hp). cbn. now rewrite Hmiss.
Qed.

Lemma FullConfigLoader_Reload_present w path opts d provider l :
  decoder (resolve w path opts) = Some d ->
  p (resolve w path opts) = Some provider ->
  configMap (loader w)
    !! Sprintf_key (Codec_Name d) (Provider_Name provider) path = Some l ->
  FullConfigLoader_Reload w path opts =
  (w' <~ reload_at w l ;; Returns (w', None)).
Proof.
  intros Hd Hp Hhit. unfold FullConfigLoader_Reload.
  rewrite (cache_key_resolved _ _ _ _ Hd Hp). cbn. now rewrite Hhit.
Qed.

Lemma FullConfigLoader_Reload_inv w path opts w' err :
  FullConfigLoader_Reload w path opts = Returns (w', err) ->
  (w' = w /\ err = Some ErrConfigNotExist) \/
  (exists l, reload_at w l = Returns w' /\ err = None).
Proof.
  unfold FullConfigLoader_Reload.
  destruct (cache_key _ _) as [key |]; cbn; [| discriminate].
  destruct (configMap (loader w) !! key) as [l |].
  - destruct (reload_at w l) as [w'' |] eqn:Hre; cbn; [| discriminate].
    intros [= <- <-]. right. eauto.
  - intros [= <- <-]. now left.
Qed.
End ReloadFacts.

(** ** Runs: cache entries and well-formedness *)

Section RunFacts.
Context {Env : Type} `{Yaml}.
Implicit Types (w : World Env).

(** An event that does not evict [key] keeps the cache entry of [key]. *)
Lemma exec_keeps w ev w' key l :
  exec w ev = Returns w' ->
  ~ evicts w ev key ->
  configMap (loader w) !! key = Some l ->
  configMap (loader w') !! key = Some l.
Proof.
  intros Hexec Hkeep Hkey. destruct ev as [path opts | path opts | l' | l' | i q data | e | pr];
    cbn in Hexec.
  - destruct (FullConfigLoader_Load w path opts) as [[w1 r] |] eqn:Hload;
      cbn in Hexec; [| discriminate].
    injection Hexec as <-. eapply FullConfigLoader_Load_keeps; eassumption.
  - destruct (FullConfigLoader_Reload w path opts) as [[w1 r] |] eqn:Hre;
      cbn in Hexec; [| discriminate].
    injection Hexec as <-.
    destruct (FullConfigLoader_Reload_inv _ _ _ _ _ Hre)
      as [[-> _] | (l1 & Hat & _)]; [done |].
    destruct (reload_at_inv _ _ _ Hat) as (c & c' & printed & _ & _ & ->).
    exact Hkey.
  - destruct (load_at_inv _ _ _ Hexec) as (c & c' & err & _ & _ & ->).
    exact Hkey.
  - destruct (reload_at_inv _ _ _ Hexec) as (c & c' & printed & _ & _ & ->).
    exact Hkey.
  - injection Hexec as <-. unfold notify.
    destruct (watchers w !! i) as [[name f] |] eqn:Hf; [| done].
    cbn. unfold run_watch.
    destruct (String.eqb_spec q (watch_path f)) as [-> | _]; [| done].
    cbn. rewrite lookup_delete_ne; [done |].
    intros Heq. apply Hkeep. cbn. eauto.
  - now injection Hexec as <-.
  - now injection Hexec as <-.
Qed.

Lemma run_keeping_keeps key w w' l :
  run_keeping key w w' ->
  configMap (loader w) !! key = Some l ->
  configMap (loader w') !! key = Some l.
Proof.
  induction 1 as [w | w ev w' w'' Hexec Hkeep _ IH]; intros Hkey; [done |].
  apply IH. eapply exec_keeps; eassumption.
Qed.

Lemma well_formed_initial (e : Env) (registry : gmap string (DataProvider Env)) :
  well_formed (initial e registry).
Proof.
  split; [| constructor].
  intros key l. cbn. now rewrite lookup_empty.
Qed.

Lemma well_formed_set_heap w l c c' printed :
  well_formed w ->
  heap w !! l = Some c ->
  p c' = p c -> decoder c' = decoder c ->
  well_formed (set_heap w (<[ l := c' ]> (heap w)) printed).
Proof.
  intros [Hcache Hheap] Hl Hp Hd. split; cbn.
  - intros key l' Hkey. rewrite length_insert. eauto.
  - apply Forall_insert; [done |].
    rewrite Hp, Hd. eapply (Forall_lookup_1 _ _ _ _ Hheap Hl).
Qed.

(** Well-formedness is an invariant of every event. *)
Lemma well_formed_exec w ev w' :
  well_formed w -> exec w ev = Returns w' -> well_formed w'.
Proof.
  intros Hwf Hexec. destruct ev as [path opts | path opts | l' | l' | i q data | e | pr];
    cbn in Hexec.
  - destruct (FullConfigLoader_Load w path opts) as [[w1 r] |] eqn:Hload;
      cbn in Hexec; [| discriminate].
    injection Hexec as <-.
    destruct (FullConfigLoader_Load_cases w path opts)
      as [[_ Heq] | [(_ & _ & Heq) | (d & provider & Hd & Hp & Hc)]];
      try (rewrite Heq in Hload; now injection Hload as <- _).
    destruct Hc as [(l & _ & Heq) | [(yc' & e & _ & _ & Heq) | (yc' & _ & Hins & Heq)]];
      rewrite Heq in Hload; injection Hload as <- _; try done.
    destruct Hwf as [Hcache Hheap].
    destruct (FrameworkConfig_Load_frame _ _ _ _ Hins) as (Hp' & Hd' & _).
    split; cbn.
    + intros key l. rewrite length_app. cbn.
      destruct (decide (Sprintf_key (Codec_Name d) (Provider_Name provider) path = key))
        as [-> | Hne].
      * rewrite lookup_insert_eq. intros [= <-]. lia.
      * rewrite lookup_insert_ne by done. intros Hkey.
        specialize (Hcache _ _ Hkey). lia.
    + apply Forall_app. split; [done |].
      constructor; [| constructor]. rewrite Hp', Hd', Hp, Hd. eauto.
  - destruct (FullConfigLoader_Reload w path opts) as [[w1 r] |] eqn:Hre;
      cbn in Hexec; [| discriminate].
    injection Hexec as <-.
    destruct (FullConfigLoader_Reload_inv _ _ _ _ _ Hre)
      as [[-> _] | (l1 & Hat & _)]; [done |].
    destruct (reload_at_inv _ _ _ Hat) as (c & c' & printed & Hl & Hr & ->).
    destruct (FrameworkConfig_Reload_frame _ _ _ _ Hr) as (Hp' & Hd' & _).
    eapply well_formed_set_heap; eassumption.
  - destruct (load_at_inv _ _ _ Hexec) as (c & c' & err & Hl & Hr & ->).
    destruct (FrameworkConfig_Load_frame _ _ _ _ Hr) as (Hp' & Hd' & _).
    eapply well_formed_set_heap; eassumption.
  - destruct (reload_at_inv _ _ _ Hexec) as (c & c' & printed & Hl & Hr & ->).
    destruct (FrameworkConfig_Reload_frame _ _ _ _ Hr) as (Hp' & Hd' & _).
    eapply well_formed_set_heap; eassumption.
  - injection Hexec as <-. unfold notify.
    destruct (watchers w !! i) as [[name f] |]; [| done].
    destruct Hwf as [Hcache Hheap]. split; cbn; [| done].
    intros key l. unfold run_watch.
    destruct (String.eqb q (watch_path f)); cbn; [| apply Hcache].
    intros Hkey. apply lookup_delete_Some in Hkey as [_ Hkey]. eauto.
  - now injection Hexec as <-.
  - now injection Hexec as <-.
Qed.

Lemma well_formed_run w w' : run w w' -> well_formed w -> well_formed w'.
Proof.
  induction 1 as [w | w ev w' w'' Hexec _ IH]; [done |].
  intros Hwf. apply IH. eapply well_formed_exec; eassumption.
Qed.

(** In a well-formed world the [Reload] of a cached instance returns. *)
Lemma reload_at_returns w key l :
  well_formed w ->
  configMap (loader w) !! key = Some l ->
  exists c c' printed,
    heap w !! l = Some c /\
    FrameworkConfig_Reload (env w) c = Returns (c', printed) /\
    reload_at w l = Returns (set_heap w (<[ l := c' ]> (heap w)) printed).
Proof.
  intros [Hcache Hheap] Hkey.
  destruct (lookup_lt_is_Some_2 (heap w) l (Hcache _ _ Hkey)) as [c Hl].
  destruct (Forall_lookup_1 _ _ _ _ Hheap Hl) as [_ Hd].
  destruct (FrameworkConfig_Reload_returns (env w) c Hd) as (c' & printed & Hre).
  exists c, c', printed. do 2 (split; [done |]).
  eapply reload_at_instance; eassumption.
Qed.
End RunFacts.

(** * Main results *)

(** ** Dotted-path lookup *)

(** The root of a lookup is read through [cast.ToStringMap], whatever it
    is: the lookup is the navigation from the map that call returns. *)
Lemma find_navigate_root {Env : Type} `{CastLaws}
    (c : FrameworkConfig Env) (key : string) :
  find c key =
  navigate (VStrMap (ToStringMap (unmarshedData c))) (parseKey c key).
Proof. unfold find, locateSubkey. now apply search_navigate. Qed.

(** A root that is a string holding a JSON object is not a mapping, and
    the navigation of the specification fails on it; the lookup resolves
    the members of the object, because [cast.ToStringMap] decodes the
    string. *)
Lemma lookup_from_string_root :
  mapping_of (H := json_cast) (unmarshedData string_rooted) = None /\
  @find Files json_cast string_rooted "a" = Ok (VString "b") /\
  navigate (H := json_cast) (unmarshedData string_rooted) (Split "a" dot)
  = Err ErrConfigNotExist /\
  ~ resolves (H := json_cast) (unmarshedData string_rooted) (Split "a" dot)
      (VString "b").
Proof.
  split; [reflexivity |]. split; [vm_compute; reflexivity |].
  split; [reflexivity |].
  intros Hres.
  apply navigate_resolves in Hres.
  discriminate Hres.
Qed.

(** C6 (amended).  A lookup splits the key on ['.'] and navigates from
    the mapping [cast.ToStringMap] makes of the root: the root itself when
    it is a mapping of either representation, the empty mapping when it
    is [nil].  From there it is the navigation that fails when the
    current node is not a mapping (string-keyed or interface-keyed) or the
    segment is absent; it returns [v] exactly when every segment but the
    last resolves to a mapping and the last is present with value [v];
    and its only error is [ErrConfigNotExist]. *)
Theorem lookup_follows_dotted_path {Env : Type} `{CastLaws}
    (c : FrameworkConfig Env) (key : string) :
  let root := VStrMap (ToStringMap (unmarshedData c)) in
  parseKey c key = Split key dot /\
  find c key = navigate root (Split key dot) /\
  (forall v, find c key = Ok v <-> resolves root (Split key dot) v) /\
  (forall e, find c key = Err e -> e = ErrConfigNotExist) /\
  (find c key = Err ErrConfigNotExist <->
   ~ exists v, resolves root (Split key dot) v) /\
  (forall m, mapping_of (unmarshedData c) = Some m -> root = VStrMap m) /\
  (unmarshedData c = VNil -> root = VStrMap ∅) /\
  (is_Some (mapping_of (unmarshedData c)) ->
   find c key = navigate (unmarshedData c) (Split key dot) /\
   forall v, find c key = Ok v <->
             resolves (unmarshedData c) (Split key dot) v).
Proof.
  intros root. pose proof (find_navigate_root c key) as Hnav.
  unfold parseKey in Hnav. fold root in Hnav.
  assert (forall v, find c key = Ok v <-> resolves root (Split key dot) v)
    as Hiff.
  { intros v. rewrite Hnav. apply navigate_resolves. }
  refine (conj eq_refl (conj Hnav (conj Hiff
            (conj _ (conj _ (conj _ (conj _ _))))))).
  - apply find_Err.
  - split.
    + intros Herr [v Hv]. apply Hiff in Hv. congruence.
    + intros Hnone. destruct (find c key) as [v | e] eqn:Hfind.
      * exfalso. apply Hnone. exists v. now apply Hiff.
      * now rewrite (find_Err _ _ _ Hfind).
  - intros m Hm. unfold root. now rewrite (ToStringMap_mapping _ _ Hm).
  - intros Hnil. unfold root. now rewrite Hnil, ToStringMap_nil.
  - intros Hroot. pose proof (find_navigate c key Hroot) as Hnav'.
    unfold parseKey in Hnav'. split; [exact Hnav' |].
    intros v. rewrite Hnav'. apply navigate_resolves.
Qed.

Lemma lookup_follows_dotted_path_witness :
  (@find Files plain_cast (instance_with [] leaf_document) "a.b" = Ok (VInt 5) /\
   resolves (H := plain_cast) leaf_document [ "a"; "b" ] (VInt 5)) /\
  resolves (H := json_cast)
    (VStrMap (ToStringMap (Cast := json_cast) (unmarshedData string_rooted)))
    [ "a" ] (VString "b").
Proof.
  split.
  - assert (is_Some (mapping_of (H := plain_cast)
                       (unmarshedData (instance_with [] leaf_document)))) as Hroot
      by (eexists; reflexivity).
    destruct (@lookup_follows_dotted_path Files plain_cast
                (cast_fragment_laws _) (instance_with [] leaf_document) "a.b")
      as (_ & _ & _ & _ & _ & _ & _ & Hmap).
    destruct (Hmap Hroot) as [_ Hiff].
    split; [reflexivity |]. apply Hiff. reflexivity.
  - destruct (@lookup_follows_dotted_path Files json_cast
                (cast_fragment_laws _) string_rooted "a")
      as (_ & _ & Hiff & _).
    apply Hiff. vm_compute. reflexivity.
Defined.

(** On a root that is a string holding a JSON object, [IsSet] is true for
    a member of the object, although the navigation of the specification
    resolves nothing from a root that is not a mapping. *)
Lemma IsSet_on_string_root :
  @IsSet Files json_cast string_rooted "a" = true /\
  ~ exists v,
      resolves (H := json_cast) (unmarshedData string_rooted) (Split "a" dot) v.
Proof.
  split; [vm_compute; reflexivity |].
  intros [v Hres].
  apply navigate_resolves in Hres.
  discriminate Hres.
Qed.

(** C8 (amended).  [IsSet key] is true iff the navigation from the
    mapping [cast.ToStringMap] makes of the root (the root itself when it
    is a mapping) resolves the key to some value, an explicit null
    included; [Get key d] is the stored value when [IsSet key] is true and
    [d] when it is false. *)
Theorem IsSet_iff_resolves_and_Get {Env : Type} `{CastLaws}
    (c : FrameworkConfig Env) (key : string) :
  let root := VStrMap (ToStringMap (unmarshedData c)) in
  (IsSet c key = true <-> exists v, resolves root (Split key dot) v) /\
  (forall d, IsSet c key = true ->
     exists v, resolves root (Split key dot) v /\ Get c key d = v) /\
  (forall d, IsSet c key = false -> Get c key d = d) /\
  (unmarshedData c = null_document ->
   IsSet c "a" = true /\ forall d, Get c "a" d = VNil) /\
  (is_Some (mapping_of (unmarshedData c)) ->
   (IsSet c key = true <->
    exists v, resolves (unmarshedData c) (Split key dot) v) /\
   (forall d, IsSet c key = true ->
      exists v, resolves (unmarshedData c) (Split key dot) v /\
                Get c key d = v)).
Proof.
  intros root. pose proof (find_navigate_root c key) as Hnav.
  unfold parseKey in Hnav. fold root in Hnav.
  rewrite IsSet_find. unfold Get.
  refine (conj (conj _ _) (conj _ (conj _ (conj (fun Hdoc => conj _ _) _)))).
  - destruct (find c key) as [v | e] eqn:Hfind; [| discriminate].
    intros _. exists v. apply navigate_resolves. congruence.
  - intros [v Hv]. apply navigate_resolves in Hv. now rewrite Hnav, Hv.
  - destruct (find c key) as [v | e] eqn:Hfind; [| discriminate].
    intros _. exists v. split; [| done]. apply navigate_resolves. congruence.
  - now destruct (find c key).
  - rewrite IsSet_find, (find_navigate_root c "a"), Hdoc.
    unfold null_document. rewrite ToStringMap_StrMap. reflexivity.
  - intros d. rewrite (find_navigate_root c "a"), Hdoc.
    unfold null_document. rewrite ToStringMap_StrMap. reflexivity.
  - intros Hroot. pose proof (find_navigate c key Hroot) as Hnav'.
    unfold parseKey in Hnav'. split; [split |].
    + destruct (find c key) as [v | e] eqn:Hfind; [| discriminate].
      intros _. exists v. apply navigate_resolves. congruence.
    + intros [v Hv]. apply navigate_resolves in Hv. now rewrite Hnav', Hv.
    + destruct (find c key) as [v | e] eqn:Hfind; [| discriminate].
      intros _. exists v. split; [| done]. apply navigate_resolves. congruence.
Qed.

Lemma IsSet_iff_resolves_and_Get_witness :
  @IsSet Files plain_cast (instance_with [] null_document) "a" = true /\
  @Get Files plain_cast (instance_with [] null_document) "a" (VInt 7) = VNil /\
  @Get Files plain_cast (instance_with [] leaf_document) "a.b.c" (VString "dflt")
  = VString "dflt" /\
  exists v,
    resolves (H := json_cast)
      (VStrMap (ToStringMap (Cast := json_cast) (unmarshedData string_rooted)))
      [ "a" ] v.
Proof.
  destruct (@IsSet_iff_resolves_and_Get Files plain_cast
              (cast_fragment_laws _) (instance_with [] null_document) "a")
    as (_ & _ & _ & Hnull & _).
  destruct (Hnull eq_refl) as [Hset Hget].
  destruct (@IsSet_iff_resolves_and_Get Files plain_cast
              (cast_fragment_laws _) (instance_with [] leaf_document) "a.b.c")
    as (_ & _ & Hdefault & _).
  destruct (@IsSet_iff_resolves_and_Get Files json_cast
              (cast_fragment_laws _) string_rooted "a")
    as (Hiff & _).
  split; [exact Hset |]. split; [apply Hget |].
  split; [apply Hdefault; reflexivity |].
  apply Hiff. vm_compute. reflexivity.
Defined.

(** ** Typed getters *)

(** C7.  Each typed getter returns the found value coerced to its type
    when the key resolves and the coercion succeeds, and the default when
    the key does not resolve or the coercion fails.  On the document
    [{"server": {"port": "8080"}}], [GetInt("server.port", 0)] is [8080],
    [GetString("server.port", "")] is ["8080"] and
    [GetInt("server.missing", 99)] is [99]. *)
Theorem typed_getters_coerce_or_default :
  (forall (Env : Type) `(CastLaws) (c : FrameworkConfig Env) (key : string),
     (forall d, GetString c key d = coerced_or_default (find c key) ToStringE d) /\
     (forall d, GetInt c key d = coerced_or_default (find c key) ToIntE d) /\
     (forall d, GetInt32 c key d = coerced_or_default (find c key) ToInt32E d) /\
     (forall d, GetInt64 c key d = coerced_or_default (find c key) ToInt64E d) /\
     (forall d, GetUint c key d = coerced_or_default (find c key) ToUintE d) /\
     (forall d, GetUint32 c key d = coerced_or_default (find c key) ToUint32E d) /\
     (forall d, GetUint64 c key d = coerced_or_default (find c key) ToUint64E d) /\
     (forall d, GetFloat32 c key d = coerced_or_default (find c key) ToFloat32E d) /\
     (forall d, GetFloat64 c key d = coerced_or_default (find c key) ToFloat64E d) /\
     (forall d, GetBool c key d = coerced_or_default (find c key) ToBoolE d)) /\
  (forall (json : string -> gmap string value) (Env : Type) (c : FrameworkConfig Env),
     unmarshedData c = server_document ->
     @GetInt Env (cast_fragment json) c "server.port" 0 = 8080%Z /\
     @GetString Env (cast_fragment json) c "server.port" "" = "8080" /\
     @GetInt Env (cast_fragment json) c "server.missing" 99 = 99%Z).
Proof.
  split.
  - intros Env C L c key.
    repeat split; intros d.
    + apply GetString_spec.
    + apply GetInt_spec.
    + apply GetInt32_spec.
    + apply GetInt64_spec.
    + apply GetUint_spec.
    + apply GetUint32_spec.
    + apply GetUint64_spec.
    + apply GetFloat32_spec.
    + apply GetFloat64_spec.
    + apply GetBool_spec.
  - intros json Env c Hdoc.
    unfold GetInt, GetString, findWithDefaultValue, find, locateSubkey.
    rewrite Hdoc. repeat split; vm_compute; reflexivity.
Qed.

Lemma typed_getters_coerce_or_default_witness :
  @GetInt Files plain_cast (instance_with [] server_document) "server.port" 0
  = 8080%Z /\
  @GetBool Files plain_cast (instance_with [] server_document) "server.port" true
  = true.
Proof.
  destruct typed_getters_coerce_or_default as [Hgeneral Hexample].
  split.
  - apply (Hexample (fun _ => ∅) Files (instance_with [] server_document) eq_refl).
  - destruct (Hgeneral Files plain_cast (cast_fragment_laws _)
                (instance_with [] server_document) "server.port")
      as (_ & _ & _ & _ & _ & _ & _ & _ & _ & Hbool).
    rewrite Hbool. reflexivity.
Defined.

(** C10.  On an instance whose tree is [nil] or the empty map (no load
    ran, or none succeeded) every lookup returns: the navigation fails
    with [ErrConfigNotExist], [IsSet] is false, and [Get] and the typed
    getters return the default. *)
Theorem lookups_total_on_unloaded_instance {Env : Type} `{CastLaws}
    (c : FrameworkConfig Env) (key : string) :
  unmarshedData c = VNil \/ unmarshedData c = VStrMap ∅ ->
  find c key = Err ErrConfigNotExist /\
  IsSet c key = false /\
  (forall d, Get c key d = d) /\
  (forall d, GetString c key d = d) /\
  (forall d, GetInt c key d = d) /\
  (forall d, GetInt32 c key d = d) /\
  (forall d, GetInt64 c key d = d) /\
  (forall d, GetUint c key d = d) /\
  (forall d, GetUint32 c key d = d) /\
  (forall d, GetUint64 c key d = d) /\
  (forall d, GetFloat32 c key d = d) /\
  (forall d, GetFloat64 c key d = d) /\
  (forall d, GetBool c key d = d).
Proof.
  intros Htree. pose proof (find_unloaded c key Htree) as Hfind.
  split; [exact Hfind |].
  split; [now rewrite IsSet_find, Hfind |].
  split; [intros d; unfold Get; now rewrite Hfind |].
  repeat split; intros d.
  - now rewrite GetString_spec, Hfind.
  - now rewrite GetInt_spec, Hfind.
  - now rewrite GetInt32_spec, Hfind.
  - now rewrite GetInt64_spec, Hfind.
  - now rewrite GetUint_spec, Hfind.
  - now rewrite GetUint32_spec, Hfind.
  - now rewrite GetUint64_spec, Hfind.
  - now rewrite GetFloat32_spec, Hfind.
  - now rewrite GetFloat64_spec, Hfind.
  - now rewrite GetBool_spec, Hfind.
Qed.

Lemma lookups_total_on_unloaded_instance_witness :
  @find Files plain_cast (newFullConfig (H := yaml_of_empty) bare_world "app.yaml")
    "server.port" = Err ErrConfigNotExist /\
  @GetInt Files plain_cast (instance_with [] (VStrMap ∅)) "server.port" 99 = 99%Z.
Proof.
  split.
  - apply (@lookups_total_on_unloaded_instance Files plain_cast
             (cast_fragment_laws _)). left. reflexivity.
  - apply (@lookups_total_on_unloaded_instance Files plain_cast
             (cast_fragment_laws _) (instance_with [] (VStrMap ∅)) "server.port").
    right. reflexivity.
Defined.

(** ** Instance-level [Load] and [Reload] *)

(** C1.  [Load] on [loaded_instance] when the file holds a line the
    decoder rejects: the parse error is returned, and the instance now
    holds the rejected bytes and an empty tree instead of the bytes and
    the tree of the previous load. *)
Theorem Load_parse_failure_overwrites_state :
  exists c',
    FrameworkConfig_Load broken_files loaded_instance =
    Returns (c', Some (errorString
      "app/config: failed to parse app.properties: properties: malformed line name")) /\
    rawData loaded_instance = bytes_of "name=old" /\
    rawData c' = bytes_of "name" /\
    unmarshedData loaded_instance = VStrMap {[ "name" := VString "old" ]} /\
    unmarshedData c' = VStrMap ∅ /\
    rawData c' <> rawData loaded_instance /\
    unmarshedData c' <> unmarshedData loaded_instance.
Proof.
  exists (instance_with (bytes_of "name") (VStrMap ∅)).
  split; [vm_compute; reflexivity |].
  cbn [rawData unmarshedData loaded_instance instance_with].
  do 4 (split; [reflexivity |]). split.
  - discriminate.
  - intros Htrees.
    apply (f_equal (fun tree => match tree with
                                | VStrMap m => m !! "name"
                                | _ => None
                                end)) in Htrees.
    vm_compute in Htrees. discriminate.
Qed.

(** C3.  [Reload] has no result.  With a provider and a decoder: when the
    read fails, or the decoding fails, the instance is returned as it was
    and one line is printed; when both succeed, the raw bytes and the tree
    are the bytes read and the map decoded, and nothing else changes. *)
Theorem Reload_keeps_or_replaces_state {Env : Type} (env : Env)
    (c : FrameworkConfig Env) (provider : DataProvider Env) (d : Codec) :
  p c = Some provider ->
  decoder c = Some d ->
  (forall err,
     Read provider env (path c) = Err err ->
     FrameworkConfig_Reload env c = Returns (c, [ reload_failed_line c err ])) /\
  (forall data m err,
     Read provider env (path c) = Ok data ->
     UnmarshalStringMap d data ∅ = (m, Some err) ->
     FrameworkConfig_Reload env c = Returns (c, [ parse_failed_line c err ])) /\
  (forall data m,
     Read provider env (path c) = Ok data ->
     UnmarshalStringMap d data ∅ = (m, None) ->
     exists c',
       FrameworkConfig_Reload env c = Returns (c', []) /\
       rawData c' = data /\ unmarshedData c' = VStrMap m /\
       p c' = p c /\ decoder c' = decoder c /\ path c' = path c).
Proof.
  intros Hp Hd. refine (conj _ (conj _ _)).
  - intros err Hread. eapply FrameworkConfig_Reload_read_error; eassumption.
  - intros data m err Hread Hdec.
    eapply FrameworkConfig_Reload_parse_error; eassumption.
  - intros data m Hread Hdec. eexists. split.
    + eapply FrameworkConfig_Reload_success; eassumption.
    + cbn. auto.
Qed.

Lemma Reload_keeps_or_replaces_state_witness :
  FrameworkConfig_Reload broken_files loaded_instance =
  Returns (loaded_instance,
           [ "app/config: failed to parse app.properties: properties: malformed line name" ]) /\
  exists c',
    FrameworkConfig_Reload updated_files loaded_instance = Returns (c', []) /\
    rawData c' = bytes_of "name=new" /\
    unmarshedData c' = VStrMap {[ "name" := VString "new" ]}.
Proof.
  split.
  - destruct (Reload_keeps_or_replaces_state broken_files loaded_instance
                FileProvider PropertiesCodec eq_refl eq_refl) as (_ & Hparse & _).
    apply (Hparse (bytes_of "name") ∅
             (errorString "properties: malformed line name"));
      vm_compute; reflexivity.
  - destruct (Reload_keeps_or_replaces_state updated_files loaded_instance
                FileProvider PropertiesCodec eq_refl eq_refl) as (_ & _ & Hok).
    destruct (Hok (bytes_of "name=new") {[ "name" := VString "new" ]})
      as (c' & Hre & Hraw & Htree & _); [vm_compute; reflexivity .. |].
    exists c'. auto.
Defined.

(** ** The loader *)

(** C2.  When the options resolve to no decoder or no provider, the
    top-level [Reload] panics on the method call that builds the cache
    key, where the top-level [Load] returns [ErrCodecNotExist] or
    [ErrProviderNotExist]. *)
Theorem Reload_panics_on_nil {Env : Type} `{Yaml}
    (w : World Env) (path : string) (opts : list (@LoadOption Env)) :
  decoder (resolve w path opts) = None \/ p (resolve w path opts) = None ->
  FullConfigLoader_Reload w path opts = Panics nil_dereference /\
  exists err,
    FullConfigLoader_Load w path opts = Returns (w, Err err) /\
    (err = ErrCodecNotExist \/ err = ErrProviderNotExist).
Proof.
  intros Hnil. split; [now apply FullConfigLoader_Reload_nil |].
  destruct (decoder (resolve w path opts)) as [d |] eqn:Hd.
  - destruct Hnil as [? | Hp]; [discriminate |].
    exists ErrProviderNotExist. split; [| now right].
    eapply FullConfigLoader_Load_no_provider; eassumption.
  - exists ErrCodecNotExist. split; [| now left].
    now apply FullConfigLoader_Load_no_decoder.
Qed.

Lemma Reload_panics_on_nil_witness :
  FullConfigLoader_Reload (H := yaml_of_empty) bare_world "app.yaml" [] =
  Panics nil_dereference.
Proof.
  apply (Reload_panics_on_nil (H := yaml_of_empty) bare_world "app.yaml" []).
  right. reflexivity.
Defined.

(** C4.  When the options resolve to a decoder and a provider, the key is
    not cached and the instance-level [Load] fails, the top-level [Load]
    returns that error, which wraps the provider's or the decoder's, and
    the world, the cache map included, is as before. *)
Theorem Load_failure_leaves_cache_untouched {Env : Type} `{Yaml}
    (w : World Env) (path : string) (opts : list (@LoadOption Env))
    (d : Codec) (provider : DataProvider Env)
    (yc' : FrameworkConfig Env) (err : error) :
  decoder (resolve w path opts) = Some d ->
  p (resolve w path opts) = Some provider ->
  configMap (loader w)
    !! Sprintf_key (Codec_Name d) (Provider_Name provider) path = None ->
  FrameworkConfig_Load (env w) (resolve w path opts) = Returns (yc', Some err) ->
  exists w',
    FullConfigLoader_Load w path opts = Returns (w', Err err) /\
    configMap (loader w') = configMap (loader w) /\
    w' = w /\
    exists cause,
      err = failed_to_load (resolve w path opts) cause \/
      err = failed_to_parse (resolve w path opts) cause.
Proof.
  intros Hd Hp Hmiss Hload. exists w.
  split; [eapply FullConfigLoader_Load_miss_error; eassumption |].
  do 2 (split; [reflexivity |]).
  rename path into arg.
  destruct (Read provider (env w) (path (resolve w arg opts)))
    as [data | cause] eqn:Hread.
  - rewrite (FrameworkConfig_Load_decoded _ _ _ _ _ Hp Hread Hd) in Hload.
    cbn zeta in Hload.
    destruct (Unmarshal d data (VStrMap ∅)) as [tree [cause |]];
      cbn in Hload; [| discriminate].
    injection Hload as _ <-. exists cause. now right.
  - rewrite (FrameworkConfig_Load_read_error _ _ _ _ Hp Hread) in Hload.
    injection Hload as _ <-. exists cause. now left.
Qed.

Lemma Load_failure_leaves_cache_untouched_witness :
  FullConfigLoader_Load (H := yaml_of_empty) (file_world broken_files)
    "app.properties" properties_options =
  Returns (file_world broken_files,
           Err (errorString
             "app/config: failed to parse app.properties: properties: malformed line name")).
Proof.
  destruct (Load_failure_leaves_cache_untouched (H := yaml_of_empty)
              (file_world broken_files) "app.properties" properties_options
              PropertiesCodec FileProvider
              (instance_with (bytes_of "name") (VStrMap ∅))
              (errorString
                 "app/config: failed to parse app.properties: properties: malformed line name"))
    as (w' & Hload & _ & -> & _);
    [vm_compute; reflexivity .. | exact Hload].
Defined.

(** C5.  When the options resolve to a decoder and a provider: the
    top-level [Reload] returns [ErrConfigNotExist] if the cache has no
    entry for the key; if it has one, it runs the in-place [Reload] of the
    cached instance and returns [nil], whatever that [Reload] printed. *)
Theorem Reload_by_key {Env : Type} `{Yaml}
    (w : World Env) (path : string) (opts : list (@LoadOption Env))
    (d : Codec) (provider : DataProvider Env) :
  well_formed w ->
  decoder (resolve w path opts) = Some d ->
  p (resolve w path opts) = Some provider ->
  let key := Codec_Name d ++ "." ++ Provider_Name provider ++ "." ++ path in
  (configMap (loader w) !! key = None ->
   FullConfigLoader_Reload w path opts = Returns (w, Some ErrConfigNotExist)) /\
  (forall l,
     configMap (loader w) !! key = Some l ->
     exists c c' printed,
       heap w !! l = Some c /\
       FrameworkConfig_Reload (env w) c = Returns (c', printed) /\
       FullConfigLoader_Reload w path opts =
       Returns (set_heap w (<[ l := c' ]> (heap w)) printed, None)).
Proof.
  intros Hwf Hd Hp key. split.
  - intros Hmiss. eapply FullConfigLoader_Reload_absent; eassumption.
  - intros l Hhit.
    destruct (reload_at_returns w key l Hwf Hhit) as (c & c' & printed & Hl & Hre & Hat).
    exists c, c', printed. do 2 (split; [done |]).
    rewrite (FullConfigLoader_Reload_present w path opts d provider l Hd Hp Hhit).
    now rewrite Hat.
Qed.

Lemma well_formed_world_loaded : well_formed world_loaded.
Proof.
  eapply (well_formed_exec (H := yaml_of_empty) (file_world good_files)
            (CallLoad "app.properties" properties_options)).
  - apply well_formed_initial.
  - vm_compute. reflexivity.
Qed.

Lemma Reload_by_key_witness :
  FullConfigLoader_Reload (H := yaml_of_empty) (file_world good_files)
    "app.properties" properties_options =
  Returns (file_world good_files, Some ErrConfigNotExist) /\
  exists w',
    FullConfigLoader_Reload (H := yaml_of_empty) world_loaded
      "app.properties" properties_options = Returns (w', None).
Proof.
  split.
  - apply (Reload_by_key (H := yaml_of_empty) (file_world good_files)
             "app.properties" properties_options PropertiesCodec FileProvider
             (well_formed_initial _ _) eq_refl eq_refl).
    vm_compute. reflexivity.
  - destruct (Reload_by_key (H := yaml_of_empty) world_loaded
                "app.properties" properties_options PropertiesCodec FileProvider
                well_formed_world_loaded eq_refl eq_refl) as [_ Hhit].
    destruct (Hhit 0) as (c & c' & printed & _ & _ & Hre);
      [vm_compute; reflexivity |].
    eexists. exact Hre.
Defined.

(** C9.  The cache key is [decoderName + "." + providerName + "." + path].
    When a [Load] has returned an instance, every later [Load] that
    resolves to a decoder and a provider of the same names, for the same
    path, returns the same instance, as long as no event in between
    evicted the key. *)
Theorem Load_returns_cached_instance {Env : Type} `{Yaml}
    (w w1 : World Env) (path : string) (opts1 : list (@LoadOption Env))
    (d1 : Codec) (provider1 : DataProvider Env) (l : loc) :
  decoder (resolve w path opts1) = Some d1 ->
  p (resolve w path opts1) = Some provider1 ->
  FullConfigLoader_Load w path opts1 = Returns (w1, Ok l) ->
  let key := Codec_Name d1 ++ "." ++ Provider_Name provider1 ++ "." ++ path in
  cache_key (resolve w path opts1) path = Returns key /\
  configMap (loader w1) !! key = Some l /\
  forall (w2 : World Env) (opts2 : list (@LoadOption Env))
         (d2 : Codec) (provider2 : DataProvider Env),
    run_keeping key w1 w2 ->
    decoder (resolve w2 path opts2) = Some d2 ->
    p (resolve w2 path opts2) = Some provider2 ->
    Codec_Name d2 = Codec_Name d1 ->
    Provider_Name provider2 = Provider_Name provider1 ->
    FullConfigLoader_Load w2 path opts2 = Returns (w2, Ok l).
Proof.
  intros Hd Hp Hload key.
  split; [now apply cache_key_resolved |].
  destruct (FullConfigLoader_Load_Ok _ _ _ _ _ Hload) as (d & pr & Hd' & Hp' & Hkey).
  assert (d = d1) as -> by congruence.
  assert (pr = provider1) as -> by congruence.
  split; [exact Hkey |].
  intros w2 opts2 d2 provider2 Hrun Hd2 Hp2 Hdn Hpn.
  eapply FullConfigLoader_Load_hit; [eassumption .. |].
  rewrite Hdn, Hpn. eapply run_keeping_keeps; eassumption.
Qed.

Lemma Load_returns_cached_instance_witness :
  FullConfigLoader_Load (H := yaml_of_empty) (file_world good_files)
    "app.properties" properties_options = Returns (world_loaded, Ok 0) /\
  FullConfigLoader_Load (H := yaml_of_empty) world_later
    "app.properties" properties_options = Returns (world_later, Ok 0).
Proof.
  assert (FullConfigLoader_Load (H := yaml_of_empty) (file_world good_files)
            "app.properties" properties_options = Returns (world_loaded, Ok 0))
    as Hfirst by (vm_compute; reflexivity).
  split; [exact Hfirst |].
  destruct (Load_returns_cached_instance (H := yaml_of_empty)
              (file_world good_files) world_loaded "app.properties"
              properties_options PropertiesCodec FileProvider 0
              eq_refl eq_refl Hfirst) as (_ & _ & Hagain).
  apply (Hagain world_later properties_options PropertiesCodec FileProvider);
    [| vm_compute; reflexivity .. ].
  apply (run_step _ world_loaded (Outside updated_files) (world_after 1));
    [vm_compute; reflexivity | intros [] |].
  apply (run_step _ _ (CallReload "app.properties" properties_options)
           (world_after 2));
    [vm_compute; reflexivity | intros [] |].
  apply (run_step _ _ (Notify 0 "other.properties" []) (world_after 3));
    [vm_compute; reflexivity | | apply run_done].
  intros (name & f & Hf & _ & Hpath). vm_compute in Hf.
  injection Hf as _ <-. discriminate Hpath.
Defined.

(** * Further properties *)

(** ** Keys and segments *)

Lemma Split_pieces (s : string) (sep : ascii) :
  Forall (fun piece => Contains piece sep = false) (Split s sep).
Proof.
  induction s as [| ch rest IH]; simpl.
  - repeat constructor.
  - destruct (Ascii.eqb ch sep) eqn:Hch.
    + constructor; [reflexivity | exact IH].
    + pose proof (Split_nonempty rest sep) as Hne.
      destruct (Split rest sep) as [| piece pieces]; [contradiction |].
      inversion IH as [| ? ? Hpiece Hpieces]; subst.
      constructor; [| exact Hpieces]. simpl. now rewrite Hch.
Qed.

Lemma Split_app (first second : string) (sep : ascii) :
  Split (first ++ String sep second) sep
  = (Split first sep ++ Split second sep)%list.
Proof.
  induction first as [| ch rest IH]; simpl.
  - now rewrite Ascii.eqb_refl.
  - destruct (Ascii.eqb ch sep); rewrite IH; [reflexivity |].
    pose proof (Split_nonempty rest sep) as Hne.
    now destruct (Split rest sep) as [| piece pieces].
Qed.

Lemma Split_plain (s : string) (sep : ascii) :
  Contains s sep = false -> Split s sep = [ s ].
Proof.
  induction s as [| ch rest IH]; simpl; [reflexivity |].
  destruct (Ascii.eqb ch sep); simpl; [discriminate |].
  intros Hrest. now rewrite (IH Hrest).
Qed.

(** X1.  [parseKey] returns at least one segment, no segment contains a
    ['.'], joining the segments with ['.'] gives the key back, and so two
    keys with the same segments are the same key. *)
Theorem parseKey_round_trip {Env : Type} (c : FrameworkConfig Env) (key : string) :
  parseKey c key <> [] /\
  Forall (fun segment => Contains segment dot = false) (parseKey c key) /\
  Join (parseKey c key) dot = key /\
  (forall key', parseKey c key' = parseKey c key -> key' = key) /\
  (Contains key dot = false -> parseKey c key = [ key ]).
Proof.
  unfold parseKey. refine (conj _ (conj _ (conj _ (conj _ _)))).
  - apply Split_nonempty.
  - apply Split_pieces.
  - apply Join_Split.
  - intros key' Heq. rewrite <- (Join_Split key' dot), Heq. apply Join_Split.
  - apply Split_plain.
Qed.

Section MoreLookupFacts.
Context {Env : Type} `{CastLaws}.
Implicit Types (c : FrameworkConfig Env) (key : string).

(** [search] does not read its receiver. *)
Lemma search_receiver c c' m subkeys : search c m subkeys = search c' m subkeys.
Proof.
  revert m. induction subkeys as [| subkey rest IH]; intros m; simpl; [reflexivity |].
  destruct (m !! subkey) as [next |]; [| reflexivity].
  destruct rest; [reflexivity |].
  destruct next; try reflexivity; apply IH.
Qed.

(** A lookup along [first ++ second] is the lookup along [first]
    followed, in the map found, by the lookup along [second]. *)
Lemma search_app c m first second :
  first <> [] -> second <> [] ->
  search c m (first ++ second)%list =
  match search c m first with
  | Ok (VStrMap m') => search c m' second
  | Ok (VIfaceMap entries) => search c (ToStringMap (VIfaceMap entries)) second
  | Ok _ => Err ErrConfigNotExist
  | Err e => Err e
  end.
Proof.
  intros Hfirst Hsecond. revert m.
  induction first as [| subkey rest IH]; [contradiction |]. intros m.
  destruct rest as [| subkey' rest'].
  - destruct second as [| s second']; [contradiction |]. cbn.
    destruct (m !! subkey) as [next |]; [| reflexivity].
    now destruct next.
  - specialize (IH ltac:(discriminate)).
    change ((subkey :: subkey' :: rest') ++ second)%list
      with (subkey :: (subkey' :: rest') ++ second)%list.
    cbn [search]. destruct (m !! subkey) as [next |]; [| reflexivity].
    change ((subkey' :: rest') ++ second)%list
      with (subkey' :: rest' ++ second)%list at 1.
    cbv iota.
    destruct next; try reflexivity; apply IH.
Qed.

Lemma find_app c first second :
  find c (first ++ String dot second) = descend c (find c first) second.
Proof.
  unfold descend, find, locateSubkey, parseKey.
  rewrite Split_app, search_app by apply Split_nonempty.
  destruct (search c (ToStringMap (unmarshedData c)) (Split first dot))
    as [next | e]; [| reflexivity].
  destruct next; try reflexivity; cbn [unmarshedData set_unmarshedData].
  - rewrite ToStringMap_StrMap. apply search_receiver.
  - apply search_receiver.
Qed.

(** An entry whose name is not the segment looked up plays no part. *)
Lemma search_other_entry c m name v subkeys :
  hd_error subkeys <> Some name ->
  search c (<[ name := v ]> m) subkeys = search c m subkeys.
Proof.
  destruct subkeys as [| subkey rest]; [reflexivity |]. cbn.
  intros Hne. rewrite lookup_insert_ne by congruence. reflexivity.
Qed.
End MoreLookupFacts.

(** X2.  The lookup of [first.second] is the lookup of [first] followed
    by the lookup of [second] in the map found there; it fails when
    [first] fails or resolves to anything but a map. *)
Theorem find_composes {Env : Type} `{CastLaws}
    (c : FrameworkConfig Env) (first second : string) :
  find c (first ++ "." ++ second) = descend c (find c first) second.
Proof. apply find_app. Qed.

(** X3.  When a dotted key is set, so is the key before its last dot or
    any other of its dots: [IsSet("a.b")] implies [IsSet("a")], and the
    value of the shorter key is a map. *)
Theorem IsSet_prefix {Env : Type} `{CastLaws}
    (c : FrameworkConfig Env) (first second : string) :
  IsSet c (first ++ "." ++ second) = true ->
  IsSet c first = true /\
  exists next, find c first = Ok next /\ is_Some (mapping_of next).
Proof.
  rewrite !IsSet_find. change (first ++ "." ++ second) with (first ++ String dot second).
  rewrite find_app. unfold descend.
  destruct (find c first) as [next | e]; [| discriminate].
  intros Hset. split; [reflexivity |]. exists next. split; [reflexivity |].
  destruct next; try discriminate; cbn; eauto.
Qed.

Lemma IsSet_prefix_witness :
  @IsSet Files plain_cast (instance_with [] server_document) "server" = true.
Proof.
  apply (@IsSet_prefix Files plain_cast (cast_fragment_laws _)
           (instance_with [] server_document) "server" "port").
  reflexivity.
Defined.

(** X4.  A ['.'] in a name cannot be escaped: an entry of the root map
    whose name contains a ['.'] is never reached, so adding it, changing
    it or removing it changes no lookup. *)
Theorem dotted_name_unreachable {Env : Type} `{CastLaws}
    (c : FrameworkConfig Env) (m : gmap string value)
    (name : string) (v : value) (key : string) :
  Contains name dot = true ->
  find (set_unmarshedData c (VStrMap (<[ name := v ]> m))) key =
  find (set_unmarshedData c (VStrMap m)) key.
Proof.
  intros Hdot. unfold find, locateSubkey, parseKey.
  cbn [unmarshedData set_unmarshedData]. rewrite !ToStringMap_StrMap.
  rewrite search_other_entry.
  - apply search_receiver.
  - pose proof (Split_pieces key dot) as Hpieces.
    destruct (Split key dot) as [| segment rest]; [discriminate |].
    inversion Hpieces as [| ? ? Hsegment _]; subst. cbn.
    intros [= ->]. congruence.
Qed.

Lemma dotted_name_unreachable_witness :
  @find Files plain_cast
    (instance_with [] (VStrMap {[ "server.port" := VString "8080" ]}))
    "server.port" = Err ErrConfigNotExist.
Proof.
  rewrite <- (insert_empty (M := gmap string) "server.port" (VString "8080")).
  change (instance_with [] (VStrMap (<[ "server.port" := VString "8080" ]> ∅)))
    with (set_unmarshedData (instance_with [] VNil)
            (VStrMap (<[ "server.port" := VString "8080" ]> ∅))).
  rewrite (@dotted_name_unreachable Files plain_cast (cast_fragment_laws _))
    by reflexivity.
  reflexivity.
Defined.

(** X5.  For a default of one of the ten primitive types,
    [findWithDefaultValue] returns a value of the default's dynamic type,
    whatever the document holds; the conversion the getter applies to it
    afterwards is on a value that already has the requested type. *)
Theorem findWithDefaultValue_type {Env : Type} `{Cast}
    (c : FrameworkConfig Env) (key : string) (defaultValue : value) :
  primitive defaultValue = true ->
  same_type (findWithDefaultValue c key defaultValue) defaultValue = true.
Proof.
  intros Hprim. unfold findWithDefaultValue.
  destruct (find c key) as [v | e].
  - destruct defaultValue; try discriminate; cbn;
      match goal with
      | |- context [match ?r with Ok _ => _ | Err _ => _ end] => now destruct r
      end.
  - now destruct defaultValue.
Qed.

Lemma findWithDefaultValue_type_witness :
  same_type
    (@findWithDefaultValue Files plain_cast (instance_with [] server_document)
       "server.port" (VInt 0))
    (VInt 0) = true.
Proof.
  apply (@findWithDefaultValue_type Files plain_cast). reflexivity.
Defined.

Lemma find_composes_witness :
  @find Files plain_cast (instance_with [] server_document) "server.port" =
  @find Files plain_cast
    (instance_with [] (VStrMap {[ "port" := VString "8080" ]})) "port".
Proof.
  exact (@find_composes Files plain_cast (cast_fragment_laws _)
           (instance_with [] server_document) "server" "port").
Defined.

(** ** More on the instance-level [Load], [Reload] and [Unmarshal] *)

Section MoreInstanceFacts.
Context {Env : Type}.
Implicit Types (c : FrameworkConfig Env) (env : Env).

(** Every way [Load] can return. *)
Lemma FrameworkConfig_Load_inv env c c' err :
  FrameworkConfig_Load env c = Returns (c', err) ->
  (p c = None /\ c' = c /\ err = Some ErrProviderNotExist) \/
  (exists provider cause,
     p c = Some provider /\ Read provider env (path c) = Err cause /\
     c' = c /\ err = Some (failed_to_load c cause)) \/
  (exists provider d data,
     p c = Some provider /\ Read provider env (path c) = Ok data /\
     decoder c = Some d /\
     c' = {| p := p c; unmarshedData := (Unmarshal d data (VStrMap ∅)).1;
             path := path c; decoder := decoder c; rawData := data |} /\
     err = match (Unmarshal d data (VStrMap ∅)).2 with
           | Some cause => Some (failed_to_parse c cause)
           | None => None
           end).
Proof.
  intros Hload. destruct (p c) as [provider |] eqn:Hp.
  - right. destruct (Read provider env (path c)) as [data | cause] eqn:Hread.
    + right. destruct (decoder c) as [d |] eqn:Hd.
      * rewrite (FrameworkConfig_Load_decoded env c provider d data Hp Hread Hd)
          in Hload.
        cbn zeta in Hload. injection Hload as <- <-.
        exists provider, d, data. rewrite Hp, Hd. auto.
      * rewrite (FrameworkConfig_Load_no_decoder env c provider data Hp Hread Hd)
          in Hload. discriminate.
    + left.
      rewrite (FrameworkConfig_Load_read_error env c provider cause Hp Hread)
        in Hload.
      injection Hload as <- <-. eauto 6.
  - left. unfold FrameworkConfig_Load in Hload. rewrite Hp in Hload.
    now injection Hload as <- <-.
Qed.

(** Every way [Reload] can return. *)
Lemma FrameworkConfig_Reload_inv env c c' printed :
  FrameworkConfig_Reload env c = Returns (c', printed) ->
  (p c = None /\ c' = c /\ printed = []) \/
  (exists provider cause,
     p c = Some provider /\ Read provider env (path c) = Err cause /\
     c' = c /\ printed = [ reload_failed_line c cause ]) \/
  (exists provider d data cause,
     p c = Some provider /\ Read provider env (path c) = Ok data /\
     decoder c = Some d /\ (UnmarshalStringMap d data ∅).2 = Some cause /\
     c' = c /\ printed = [ parse_failed_line c cause ]) \/
  (exists provider d data,
     p c = Some provider /\ Read provider env (path c) = Ok data /\
     decoder c = Some d /\ (UnmarshalStringMap d data ∅).2 = None /\
     c' = {| p := p c; unmarshedData := VStrMap (UnmarshalStringMap d data ∅).1;
             path := path c; decoder := decoder c; rawData := data |} /\
     printed = []).
Proof.
  intros Hre. destruct (p c) as [provider |] eqn:Hp.
  - right. destruct (Read provider env (path c)) as [data | cause] eqn:Hread.
    + right. destruct (decoder c) as [d |] eqn:Hd.
      * destruct (UnmarshalStringMap d data ∅) as [m [cause |]] eqn:Hdec.
        -- rewrite (FrameworkConfig_Reload_parse_error env c provider d data m cause
                      Hp Hread Hd Hdec) in Hre.
           injection Hre as <- <-. left. exists provider, d, data, cause.
           rewrite Hdec. auto 7.
        -- rewrite (FrameworkConfig_Reload_success env c provider d data m
                      Hp Hread Hd Hdec) in Hre.
           injection Hre as <- <-. right. exists provider, d, data.
           rewrite Hdec, Hp, Hd. auto 7.
      * unfold FrameworkConfig_Reload in Hre.
        rewrite Hp, Hread, Hd in Hre. discriminate.
    + left.
      rewrite (FrameworkConfig_Reload_read_error env c provider cause Hp Hread)
        in Hre.
      injection Hre as <- <-. eauto 6.
  - left. rewrite (FrameworkConfig_Reload_no_provider env c Hp) in Hre.
    now injection Hre as <- <-.
Qed.
End MoreInstanceFacts.

(** X6.  When the instance-level [Load] returns [nil], [Bytes()] is
    exactly what the provider returned for the instance's path, the tree
    is what the decoder made of these bytes starting from an empty map,
    and the provider, the decoder and the path are unchanged. *)
Theorem Load_success_stores_what_was_read {Env : Type} (env : Env)
    (c c' : FrameworkConfig Env) :
  FrameworkConfig_Load env c = Returns (c', None) ->
  exists provider d data,
    p c = Some provider /\ decoder c = Some d /\
    Read provider env (path c) = Ok data /\
    Unmarshal d data (VStrMap ∅) = (unmarshedData c', None) /\
    Bytes c' = data /\
    p c' = p c /\ decoder c' = decoder c /\ path c' = path c.
Proof.
  intros Hload.
  destruct (FrameworkConfig_Load_inv _ _ _ _ Hload)
    as [(_ & _ & ?) | [(? & ? & _ & _ & _ & ?) | (provider & d & data & Hp & Hread & Hd & -> & Herr)]];
    try discriminate.
  exists provider, d, data. cbn.
  destruct (Unmarshal d data (VStrMap ∅)) as [tree [cause |]]; [discriminate |].
  auto 8.
Qed.

Lemma Load_success_stores_what_was_read_witness :
  exists c',
    FrameworkConfig_Load updated_files loaded_instance = Returns (c', None) /\
    Bytes c' = bytes_of "name=new".
Proof.
  exists (instance_with (bytes_of "name=new")
            (VStrMap {[ "name" := VString "new" ]})).
  assert (FrameworkConfig_Load updated_files loaded_instance =
          Returns (instance_with (bytes_of "name=new")
                     (VStrMap {[ "name" := VString "new" ]}), None)) as Hload
    by (vm_compute; reflexivity).
  split; [exact Hload |].
  destruct (Load_success_stores_what_was_read _ _ _ Hload)
    as (provider & d & data & Hp & _ & Hread & _ & Hbytes & _).
  rewrite Hbytes. injection Hp as <-. vm_compute in Hread. now injection Hread as <-.
Defined.

(** X7.  When the instance-level [Load] returns an error, it is
    [ErrProviderNotExist] (no provider), a [failed to load] error wrapping
    the provider's, or a [failed to parse] error wrapping the decoder's;
    in the first two cases the instance is exactly as before the call. *)
Theorem Load_errors {Env : Type} (env : Env)
    (c c' : FrameworkConfig Env) (err : error) :
  FrameworkConfig_Load env c = Returns (c', Some err) ->
  (p c = None /\ err = ErrProviderNotExist /\ c' = c) \/
  (exists provider cause,
     p c = Some provider /\ Read provider env (path c) = Err cause /\
     err = failed_to_load c cause /\ c' = c) \/
  (exists provider d data cause,
     p c = Some provider /\ Read provider env (path c) = Ok data /\
     decoder c = Some d /\
     (Unmarshal d data (VStrMap ∅)).2 = Some cause /\
     err = failed_to_parse c cause /\ Bytes c' = data).
Proof.
  intros Hload.
  destruct (FrameworkConfig_Load_inv _ _ _ _ Hload)
    as [(Hp & -> & [= ->]) | [(provider & cause & Hp & Hread & -> & [= ->])
       | (provider & d & data & Hp & Hread & Hd & -> & Herr)]].
  - now left.
  - right. left. eauto 7.
  - right. right.
    destruct (Unmarshal d data (VStrMap ∅)) as [tree [cause |]] eqn:Hdec;
      [| discriminate].
    injection Herr as ->. exists provider, d, data, cause.
    repeat split; try done. now rewrite Hdec.
Qed.

Lemma Load_errors_witness :
  exists cause,
    Read FileProvider (∅ : Files) "app.properties" = Err cause /\
    FrameworkConfig_Load (∅ : Files) loaded_instance =
    Returns (loaded_instance, Some (failed_to_load loaded_instance cause)).
Proof.
  assert (FrameworkConfig_Load (∅ : Files) loaded_instance =
          Returns (loaded_instance,
                   Some (errorString
                     "app/config: failed to load app.properties: open app.properties: no such file or directory")))
    as Hload by (vm_compute; reflexivity).
  destruct (Load_errors _ _ _ _ Hload)
    as [(Hp & _) | [(provider & cause & Hp & Hread & Herr & _)
       | (provider & d & data & cause & Hp & Hread & _)]].
  - discriminate Hp.
  - injection Hp as <-. exists cause. split; [exact Hread |].
    rewrite Hload, Herr. reflexivity.
  - injection Hp as <-. vm_compute in Hread. discriminate Hread.
Defined.

(** X8.  The instance-level [Load] and [Reload] panic in one situation
    only: the instance has a provider, the read succeeds, and the decoder
    is [nil]. *)
Theorem instance_panics_iff {Env : Type} (env : Env) (c : FrameworkConfig Env) :
  let read_without_decoder :=
    exists provider data,
      p c = Some provider /\ Read provider env (path c) = Ok data /\
      decoder c = None in
  (panics (FrameworkConfig_Load env c) <-> read_without_decoder) /\
  (panics (FrameworkConfig_Reload env c) <-> read_without_decoder).
Proof.
  cbn zeta. split; split.
  - intros Hpanic. destruct (decoder c) as [d |] eqn:Hd.
    { destruct (FrameworkConfig_Load_returns env c) as (c' & err & Hret);
        [rewrite Hd; eauto |].
      rewrite Hret in Hpanic. contradiction. }
    unfold FrameworkConfig_Load in Hpanic.
    destruct (p c) as [provider |]; [| contradiction].
    destruct (Read provider env (path c)) as [data | cause] eqn:Hread;
      [| contradiction].
    eauto.
  - intros (provider & data & Hp & Hread & Hd).
    now rewrite (FrameworkConfig_Load_no_decoder env c provider data).
  - intros Hpanic. destruct (decoder c) as [d |] eqn:Hd.
    { destruct (FrameworkConfig_Reload_returns env c) as (c' & err & Hret);
        [rewrite Hd; eauto |].
      rewrite Hret in Hpanic. contradiction. }
    unfold FrameworkConfig_Reload in Hpanic.
    destruct (p c) as [provider |]; [| contradiction].
    destruct (Read provider env (path c)) as [data | cause] eqn:Hread;
      [| contradiction].
    eauto.
  - intros (provider & data & Hp & Hread & Hd).
    unfold FrameworkConfig_Reload. now rewrite Hp, Hread, Hd.
Qed.

(** X9.  [Unmarshal] decodes the stored raw bytes with the instance's
    decoder, and panics exactly when the decoder is [nil].  After a [Load]
    that returned [nil], [Unmarshal] into an empty map gives the stored
    tree again, with a [nil] error. *)
Theorem Unmarshal_agrees_with_tree {Env : Type} (env : Env)
    (c c' : FrameworkConfig Env) :
  (panics (FrameworkConfig_Unmarshal c (VStrMap ∅)) <-> decoder c = None) /\
  (forall d out, decoder c = Some d ->
     FrameworkConfig_Unmarshal c out = Returns (Unmarshal d (Bytes c) out)) /\
  (FrameworkConfig_Load env c = Returns (c', None) ->
   FrameworkConfig_Unmarshal c' (VStrMap ∅) = Returns (unmarshedData c', None)).
Proof.
  unfold FrameworkConfig_Unmarshal. refine (conj _ (conj _ _)).
  - destruct (decoder c); cbn; split; try done.
  - intros d out ->. reflexivity.
  - intros Hload.
    destruct (FrameworkConfig_Load_inv _ _ _ _ Hload)
      as [(_ & _ & ?) | [(? & ? & _ & _ & _ & ?)
         | (provider & d & data & Hp & Hread & Hd & -> & Herr)]];
      try discriminate.
    cbn. rewrite Hd. cbn.
    destruct (Unmarshal d data (VStrMap ∅)) as [tree [cause |]]; [discriminate |].
    reflexivity.
Qed.

Lemma Unmarshal_agrees_with_tree_witness :
  FrameworkConfig_Unmarshal
    (instance_with (bytes_of "name=new") (VStrMap {[ "name" := VString "new" ]}))
    (VStrMap ∅) =
  Returns (VStrMap {[ "name" := VString "new" ]}, None).
Proof.
  destruct (Unmarshal_agrees_with_tree updated_files loaded_instance
              (instance_with (bytes_of "name=new")
                 (VStrMap {[ "name" := VString "new" ]}))) as (_ & _ & Hagain).
  apply Hagain. vm_compute. reflexivity.
Defined.

(** X10.  While the outside world does not change, [Load] and [Reload]
    are idempotent: a second call returns the same result and leaves the
    instance as the first call left it. *)
Theorem Load_Reload_idempotent {Env : Type} (env : Env)
    (c c1 : FrameworkConfig Env) :
  (forall err,
     FrameworkConfig_Load env c = Returns (c1, err) ->
     FrameworkConfig_Load env c1 = Returns (c1, err)) /\
  (forall printed,
     FrameworkConfig_Reload env c = Returns (c1, printed) ->
     FrameworkConfig_Reload env c1 = Returns (c1, printed)).
Proof.
  split.
  - intros err Hload.
    destruct (FrameworkConfig_Load_inv _ _ _ _ Hload)
      as [(_ & -> & _) | [(? & ? & _ & _ & -> & _)
         | (provider & d & data & Hp & Hread & Hd & -> & ->)]];
      try exact Hload.
    rewrite (FrameworkConfig_Load_decoded env _ provider d data); done.
  - intros printed Hre.
    destruct (FrameworkConfig_Reload_inv _ _ _ _ Hre)
      as [(_ & -> & _) | [(? & ? & _ & _ & -> & _)
         | [(? & ? & ? & ? & _ & _ & _ & _ & -> & _)
           | (provider & d & data & Hp & Hread & Hd & Hok & -> & ->)]]];
      try exact Hre.
    destruct (UnmarshalStringMap d data ∅) as [m err] eqn:Hdec.
    cbn in Hok. subst err.
    rewrite (FrameworkConfig_Reload_success env _ provider d data m); done.
Qed.

(** ** More on the loader *)

Section MoreLoaderFacts.
Context {Env : Type} `{Yaml}.
Implicit Types (w : World Env) (opts : list (@LoadOption Env)).

(** The world a top-level [Load] leaves: the same, or the one with the
    loaded instance stored and watched. *)
Lemma FullConfigLoader_Load_world w path opts w' r :
  FullConfigLoader_Load w path opts = Returns (w', r) ->
  (w' = w /\
   (is_Ok r = false \/
    exists l key, r = Ok l /\ configMap (loader w) !! key = Some l)) \/
  (exists yc' d provider,
     let key := Sprintf_key (Codec_Name d) (Provider_Name provider) path in
     w' = store_and_watch w yc' key path provider /\
     r = Ok (length (heap w)) /\
     configMap (loader w) !! key = None /\
     p yc' = Some provider /\ decoder yc' = Some d /\
     FrameworkConfig_Load (env w) (resolve w path opts) = Returns (yc', None)).
Proof.
  intros Hload.
  destruct (FullConfigLoader_Load_cases w path opts)
    as [[_ Heq] | [(_ & _ & Heq) | (d & provider & Hd & Hp & Hc)]].
  - rewrite Heq in Hload. injection Hload as <- <-. left. auto.
  - rewrite Heq in Hload. injection Hload as <- <-. left. auto.
  - destruct Hc as [(l & Hhit & Heq) | [(yc' & e & _ & _ & Heq) | (yc' & Hmiss & Hins & Heq)]];
      rewrite Heq in Hload; injection Hload as <- <-.
    + left. split; [done |]. right. eauto.
    + left. auto.
    + right. exists yc', d, provider.
      destruct (FrameworkConfig_Load_frame _ _ _ _ Hins) as (Hp' & Hd' & _).
      cbn zeta. rewrite Hp', Hd'. auto 8.
Qed.

Lemma same_identity_refl w : same_identity w w.
Proof. intros l c Hl. eauto. Qed.

Lemma same_identity_trans w1 w2 w3 :
  same_identity w1 w2 -> same_identity w2 w3 -> same_identity w1 w3.
Proof.
  intros H12 H23 l c Hl.
  destruct (H12 l c Hl) as (c2 & Hl2 & Hp2 & Hd2 & Hpath2).
  destruct (H23 l c2 Hl2) as (c3 & Hl3 & Hp3 & Hd3 & Hpath3).
  exists c3. split; [done |]. split_and!; congruence.
Qed.

Lemma same_identity_set_heap w l c c' printed :
  heap w !! l = Some c ->
  p c' = p c -> decoder c' = decoder c -> path c' = path c ->
  same_identity w (set_heap w (<[ l := c' ]> (heap w)) printed).
Proof.
  intros Hl Hp Hd Hpath l0 c0 Hl0. cbn.
  destruct (decide (l0 = l)) as [-> | Hne].
  - exists c'. rewrite list_lookup_insert_eq by (eapply lookup_lt_Some; eassumption).
    assert (c0 = c) as -> by congruence. auto.
  - exists c0. rewrite list_lookup_insert_ne by done. auto.
Qed.

(** What every event keeps: the identity of the instances, the callbacks
    registered so far, what was printed so far. *)
Lemma exec_frame w ev w' :
  exec w ev = Returns w' ->
  same_identity w w' /\
  watchers w `prefix_of` watchers w' /\
  stdout w `prefix_of` stdout w'.
Proof.
  intros Hexec.
  destruct ev as [path opts | path opts | l | l | i q data | e | pr];
    cbn in Hexec.
  - destruct (FullConfigLoader_Load w path opts) as [[w1 r] |] eqn:Hload;
      cbn in Hexec; [| discriminate].
    injection Hexec as <-.
    destruct (FullConfigLoader_Load_world _ _ _ _ _ Hload)
      as [[-> _] | (yc' & d & provider & -> & _)].
    + split; [apply same_identity_refl | done].
    + split_and!; cbn.
      * intros l c Hl. exists c. split; [| done]. now apply lookup_app_l_Some.
      * now apply prefix_app_r.
      * done.
  - destruct (FullConfigLoader_Reload w path opts) as [[w1 r] |] eqn:Hre;
      cbn in Hexec; [| discriminate].
    injection Hexec as <-.
    destruct (FullConfigLoader_Reload_inv _ _ _ _ _ Hre)
      as [[-> _] | (l1 & Hat & _)].
    + split; [apply same_identity_refl | done].
    + destruct (reload_at_inv _ _ _ Hat) as (c & c' & printed & Hl & Hr & ->).
      destruct (FrameworkConfig_Reload_frame _ _ _ _ Hr) as (Hp' & Hd' & Hpath').
      split_and!; cbn; [| done | now apply prefix_app_r].
      eapply same_identity_set_heap; eassumption.
  - destruct (load_at_inv _ _ _ Hexec) as (c & c' & err & Hl & Hr & ->).
    destruct (FrameworkConfig_Load_frame _ _ _ _ Hr) as (Hp' & Hd' & Hpath').
    split_and!; cbn; [| done | now apply prefix_app_r].
    eapply same_identity_set_heap; eassumption.
  - destruct (reload_at_inv _ _ _ Hexec) as (c & c' & printed & Hl & Hr & ->).
    destruct (FrameworkConfig_Reload_frame _ _ _ _ Hr) as (Hp' & Hd' & Hpath').
    split_and!; cbn; [| done | now apply prefix_app_r].
    eapply same_identity_set_heap; eassumption.
  - injection Hexec as <-. unfold notify.
    destruct (watchers w !! i) as [[name f] |];
      (split; [intros l c Hl; cbn; eauto | done]).
  - injection Hexec as <-. split; [intros l c Hl; cbn; eauto | done].
  - injection Hexec as <-. split; [intros l c Hl; cbn; eauto | done].
Qed.

(** Every event keeps the cache entries watched. *)
Lemma watched_exec w ev w' :
  watched w -> exec w ev = Returns w' -> watched w'.
Proof.
  intros Hw Hexec.
  destruct ev as [path opts | path opts | l | l | i q data | e | pr];
    cbn in Hexec.
  - destruct (FullConfigLoader_Load w path opts) as [[w1 r] |] eqn:Hload;
      cbn in Hexec; [| discriminate].
    injection Hexec as <-.
    destruct (FullConfigLoader_Load_world _ _ _ _ _ Hload)
      as [[-> _] | (yc' & d & provider & -> & _)]; [done |].
    intros key l. cbn.
    destruct (decide (Sprintf_key (Codec_Name d) (Provider_Name provider) path = key))
      as [<- | Hne].
    + intros _. exists (length (watchers w)). do 2 eexists. split.
      * rewrite lookup_app_r by done. now rewrite Nat.sub_diag.
      * reflexivity.
    + rewrite lookup_insert_ne by done. intros Hkey.
      destruct (Hw _ _ Hkey) as (i & name & f & Hi & Hf).
      exists i, name, f. split; [| done]. now apply lookup_app_l_Some.
  - destruct (FullConfigLoader_Reload w path opts) as [[w1 r] |] eqn:Hre;
      cbn in Hexec; [| discriminate].
    injection Hexec as <-.
    destruct (FullConfigLoader_Reload_inv _ _ _ _ _ Hre)
      as [[-> _] | (l1 & Hat & _)]; [done |].
    now destruct (reload_at_inv _ _ _ Hat) as (c & c' & printed & _ & _ & ->).
  - now destruct (load_at_inv _ _ _ Hexec) as (c & c' & err & _ & _ & ->).
  - now destruct (reload_at_inv _ _ _ Hexec) as (c & c' & printed & _ & _ & ->).
  - injection Hexec as <-. unfold notify.
    destruct (watchers w !! i) as [[name f] |]; [| done].
    intros key l. cbn. unfold run_watch.
    destruct (String.eqb q (watch_path f)); cbn; [| apply Hw].
    intros Hkey. apply lookup_delete_Some in Hkey as [_ Hkey]. eauto.
  - now injection Hexec as <-.
  - now injection Hexec as <-.
Qed.

Lemma watched_run w w' : run w w' -> watched w -> watched w'.
Proof.
  induction 1 as [w | w ev w' w'' Hexec _ IH]; [done |].
  intros Hw. apply IH. eapply watched_exec; eassumption.
Qed.

Lemma run_frame w w' :
  run w w' ->
  same_identity w w' /\
  watchers w `prefix_of` watchers w' /\
  stdout w `prefix_of` stdout w'.
Proof.
  induction 1 as [w | w ev w' w'' Hexec _ (IHid & IHw & IHout)].
  - split; [apply same_identity_refl | done].
  - destruct (exec_frame _ _ _ Hexec) as (Hid & Hwatch & Hout).
    split_and!.
    + eapply same_identity_trans; eassumption.
    + etrans; eassumption.
    + etrans; eassumption.
Qed.

Lemma reachable_invariants w :
  reachable w -> well_formed w /\ watched w.
Proof.
  intros (e & registry & Hrun). split.
  - eapply well_formed_run; [eassumption | apply well_formed_initial].
  - eapply watched_run; [eassumption |].
    intros key l. cbn. now rewrite lookup_empty.
Qed.
End MoreLoaderFacts.

Lemma reachable_world_loaded : reachable (H := yaml_of_empty) world_loaded.
Proof.
  exists good_files, {[ "file" := FileProvider ]}.
  apply (run_cons (H := yaml_of_empty) _
           (CallLoad "app.properties" properties_options) world_loaded);
    [vm_compute; reflexivity | apply run_nil].
Qed.

Lemma run_world_later : run (H := yaml_of_empty) world_loaded world_later.
Proof.
  apply (run_cons _ (Outside updated_files) (world_after 1));
    [vm_compute; reflexivity |].
  apply (run_cons _ (CallReload "app.properties" properties_options)
           (world_after 2));
    [vm_compute; reflexivity |].
  apply (run_cons _ (Notify 0 "other.properties" []) (world_after 3));
    [vm_compute; reflexivity | apply run_nil].
Qed.

(** X11.  A top-level [Load] that returns never changes the outside
    world, the registry or standard output; it keeps every instance and
    every cache entry as they are and only adds to them, and only adds
    callbacks; when it returns an error, the whole world is as before. *)
Theorem Load_frame {Env : Type} `{Yaml}
    (w w' : World Env) (path : string) (opts : list (@LoadOption Env))
    (r : result loc) :
  FullConfigLoader_Load w path opts = Returns (w', r) ->
  env w' = env w /\ providers w' = providers w /\ stdout w' = stdout w /\
  heap w `prefix_of` heap w' /\
  configMap (loader w) ⊆ configMap (loader w') /\
  watchers w `prefix_of` watchers w' /\
  (is_Ok r = false -> w' = w).
Proof.
  intros Hload.
  destruct (FullConfigLoader_Load_world _ _ _ _ _ Hload)
    as [[-> _] | (yc' & d & provider & -> & -> & Hmiss & _)].
  - split_and!; done.
  - cbn. split_and!; try done.
    + now apply prefix_app_r.
    + now apply insert_subseteq.
    + now apply prefix_app_r.
Qed.

Lemma Load_frame_witness :
  heap (file_world good_files) `prefix_of` heap world_loaded /\
  stdout world_loaded = [].
Proof.
  destruct (Load_frame (H := yaml_of_empty) (file_world good_files) world_loaded
              "app.properties" properties_options (Ok 0))
    as (_ & _ & Hout & Hheap & _); [vm_compute; reflexivity |].
  split; [exact Hheap | exact Hout].
Defined.

(** X12.  A top-level [Reload] that returns never changes the outside
    world, the registry, the cache or the callbacks, and never adds or
    removes an instance; it may only print, and change instances the
    cache points to.  When it returns [ErrConfigNotExist] the whole world
    is as before. *)
Theorem Reload_frame {Env : Type} `{Yaml}
    (w w' : World Env) (path : string) (opts : list (@LoadOption Env))
    (err : option error) :
  FullConfigLoader_Reload w path opts = Returns (w', err) ->
  env w' = env w /\ providers w' = providers w /\
  loader w' = loader w /\ watchers w' = watchers w /\
  length (heap w') = length (heap w) /\
  stdout w `prefix_of` stdout w' /\
  (forall l, (forall key, configMap (loader w) !! key <> Some l) ->
             heap w' !! l = heap w !! l) /\
  (err = None \/ err = Some ErrConfigNotExist) /\
  (err = Some ErrConfigNotExist -> w' = w).
Proof.
  intros Hre. unfold FullConfigLoader_Reload in Hre.
  destruct (cache_key _ _) as [key |]; cbn in Hre; [| discriminate].
  destruct (configMap (loader w) !! key) as [l |] eqn:Hkey.
  - destruct (reload_at w l) as [w1 |] eqn:Hat; cbn in Hre; [| discriminate].
    injection Hre as <- <-.
    destruct (reload_at_inv _ _ _ Hat) as (c & c' & printed & Hl & Hr & ->).
    cbn. split_and!; try done.
    + apply length_insert.
    + now apply prefix_app_r.
    + intros l' Hl'. apply list_lookup_insert_ne. intros <-. eapply Hl', Hkey.
    + now left.
  - injection Hre as <- <-. split_and!; try done. now right.
Qed.

Lemma Reload_frame_witness :
  exists w',
    FullConfigLoader_Reload (H := yaml_of_empty) (world_after 1)
      "app.properties" properties_options = Returns (w', None) /\
    loader w' = loader (world_after 1) /\
    length (heap w') = 1.
Proof.
  exists (world_after 2).
  assert (FullConfigLoader_Reload (H := yaml_of_empty) (world_after 1)
            "app.properties" properties_options = Returns (world_after 2, None))
    as Hre by (vm_compute; reflexivity).
  destruct (Reload_frame _ _ _ _ _ Hre) as (_ & _ & Hloader & _ & Hlen & _).
  split; [exact Hre |]. split; [exact Hloader |].
  rewrite Hlen. reflexivity.
Defined.

(** X13.  Along every run of the package an instance once created stays
    where it is and keeps its provider, its decoder and its path (only
    its raw bytes and its tree change); callbacks are never removed; and
    what was printed stays printed. *)
Theorem runs_keep_instances {Env : Type} `{Yaml} (w w' : World Env) :
  run w w' ->
  (forall l c,
     heap w !! l = Some c ->
     exists c', heap w' !! l = Some c' /\
                p c' = p c /\ decoder c' = decoder c /\ path c' = path c) /\
  watchers w `prefix_of` watchers w' /\
  stdout w `prefix_of` stdout w'.
Proof. apply run_frame. Qed.

Lemma runs_keep_instances_witness :
  exists c', heap world_later !! 0 = Some c' /\ path c' = "app.properties".
Proof.
  destruct (runs_keep_instances (H := yaml_of_empty) _ _ run_world_later)
    as (Hid & _).
  destruct (Hid 0 (instance_with (bytes_of "name=old")
                     (VStrMap {[ "name" := VString "old" ]})))
    as (c' & Hl & _ & _ & Hpath); [vm_compute; reflexivity |].
  exists c'. split; [exact Hl | exact Hpath].
Defined.

(** X14.  In every world reached from the start of the process, a cache
    entry points to an instance, no [Load] or [Reload] on an instance
    panics, and the top-level [Reload] returns whenever the options
    resolve to a decoder and a provider. *)
Theorem reachable_worlds_safe {Env : Type} `{Yaml} (w : World Env) :
  reachable w ->
  (forall key l, configMap (loader w) !! key = Some l -> is_Some (heap w !! l)) /\
  (forall l c, heap w !! l = Some c ->
     ~ panics (FrameworkConfig_Load (env w) c) /\
     ~ panics (FrameworkConfig_Reload (env w) c)) /\
  (forall path opts,
     is_Some (decoder (resolve w path opts)) ->
     is_Some (p (resolve w path opts)) ->
     exists w' err, FullConfigLoader_Reload w path opts = Returns (w', err)).
Proof.
  intros Hreach.
  destruct (reachable_invariants w Hreach) as [[Hcache Hheap] _].
  split_and!.
  - intros key l Hkey. apply lookup_lt_is_Some_2. eauto.
  - intros l c Hl. destruct (Forall_lookup_1 _ _ _ _ Hheap Hl) as [_ Hd].
    destruct (FrameworkConfig_Load_returns (env w) c Hd) as (? & ? & ->).
    destruct (FrameworkConfig_Reload_returns (env w) c Hd) as (? & ? & ->).
    split; intros [].
  - intros path opts [d Hd] [provider Hp].
    destruct (configMap (loader w)
                !! Sprintf_key (Codec_Name d) (Provider_Name provider) path)
      as [l |] eqn:Hkey.
    + destruct (reload_at_returns w _ l (conj Hcache Hheap) Hkey)
        as (c & c' & printed & _ & _ & Hat).
      rewrite (FullConfigLoader_Reload_present w path opts d provider l Hd Hp Hkey).
      rewrite Hat. cbn. eauto.
    + rewrite (FullConfigLoader_Reload_absent w path opts d provider Hd Hp Hkey).
      eauto.
Qed.

Lemma reachable_worlds_safe_witness :
  is_Some (heap world_loaded !! 0).
Proof.
  destruct (reachable_worlds_safe (H := yaml_of_empty) world_loaded
              reachable_world_loaded) as (Hcache & _).
  apply (Hcache "properties.file.app.properties"). vm_compute. reflexivity.
Defined.

(** X15.  In every world reached from the start of the process, each
    cache entry has a registered callback that evicts it: calling that
    callback with the path it watches removes the entry, and leaves the
    instances alone. *)
Theorem cached_entries_can_be_evicted {Env : Type} `{Yaml}
    (w : World Env) (key : string) (l : loc) :
  reachable w ->
  configMap (loader w) !! key = Some l ->
  exists i name f,
    watchers w !! i = Some (name, f) /\ watch_key f = key /\
    forall data,
      configMap (loader (notify w i (watch_path f) data)) !! key = None /\
      heap (notify w i (watch_path f) data) = heap w.
Proof.
  intros Hreach Hkey.
  destruct (reachable_invariants w Hreach) as [_ Hwatched].
  destruct (Hwatched key l Hkey) as (i & name & f & Hi & Hf).
  exists i, name, f. do 2 (split; [done |]). intros data.
  unfold notify. rewrite Hi. cbn. unfold run_watch.
  rewrite String.eqb_refl. cbn. rewrite Hf. split; [apply lookup_delete_eq | done].
Qed.

Lemma cached_entries_can_be_evicted_witness :
  exists i name f,
    watchers world_loaded !! i = Some (name, f) /\
    watch_key f = "properties.file.app.properties".
Proof.
  destruct (cached_entries_can_be_evicted (H := yaml_of_empty) world_loaded
              "properties.file.app.properties" 0 reachable_world_loaded)
    as (i & name & f & Hi & Hf & _); [vm_compute; reflexivity |].
  eauto.
Defined.

Lemma Load_Reload_idempotent_witness :
  FrameworkConfig_Reload updated_files
    (instance_with (bytes_of "name=new") (VStrMap {[ "name" := VString "new" ]})) =
  Returns (instance_with (bytes_of "name=new")
             (VStrMap {[ "name" := VString "new" ]}), []).
Proof.
  apply (proj2 (Load_Reload_idempotent updated_files loaded_instance _)).
  vm_compute. reflexivity.
Defined.

(** X16.  After the cache entry of a key has been evicted, the next
    [Load] for that key that succeeds reads and decodes again and returns
    a new instance; the instance returned before the eviction stays in
    place, untouched by the eviction and by the new [Load]. *)
Theorem Load_after_eviction {Env : Type} `{Yaml}
    (w : World Env) (path : string) (opts : list (@LoadOption Env))
    (d : Codec) (provider : DataProvider Env) (l : loc)
    (i : nat) (name : string) (f : WatchFunc) (data : list byte)
    (yc' : FrameworkConfig Env) :
  let key := Sprintf_key (Codec_Name d) (Provider_Name provider) path in
  let w2 := notify w i (watch_path f) data in
  well_formed w ->
  configMap (loader w) !! key = Some l ->
  watchers w !! i = Some (name, f) ->
  watch_key f = key ->
  decoder (resolve w2 path opts) = Some d ->
  p (resolve w2 path opts) = Some provider ->
  FrameworkConfig_Load (env w2) (resolve w2 path opts) = Returns (yc', None) ->
  exists w3 l',
    FullConfigLoader_Load w2 path opts = Returns (w3, Ok l') /\
    l' <> l /\
    heap w3 !! l = heap w !! l /\
    heap w3 !! l' = Some yc' /\
    configMap (loader w3) !! key = Some l'.
Proof.
  intros key w2 [Hcache _] Hkey Hi Hf Hd Hp Hload.
  assert (heap w2 = heap w) as Hheap.
  { unfold w2, notify. now rewrite Hi. }
  assert (configMap (loader w2) !! key = None) as Hmiss.
  { unfold w2, notify. rewrite Hi. cbn. unfold run_watch.
    rewrite String.eqb_refl. cbn. rewrite Hf. apply lookup_delete_eq. }
  pose proof (Hcache _ _ Hkey) as Hl.
  exists (store_and_watch w2 yc' key path provider), (length (heap w2)).
  split; [eapply FullConfigLoader_Load_miss_stored; eassumption |].
  cbn. rewrite Hheap. split_and!.
  - lia.
  - now apply lookup_app_l.
  - rewrite lookup_app_r by done. now rewrite Nat.sub_diag.
  - apply lookup_insert_eq.
Qed.

Lemma Load_after_eviction_witness :
  exists w3 l',
    FullConfigLoader_Load (H := yaml_of_empty) world_evicted
      "app.properties" properties_options = Returns (w3, Ok l') /\
    l' <> 0.
Proof.
  destruct (Load_after_eviction (H := yaml_of_empty) world_loaded
              "app.properties" properties_options PropertiesCodec FileProvider
              0 0 "file"
              {| watch_path := "app.properties";
                 watch_key := "properties.file.app.properties" |} []
              (instance_with (bytes_of "name=old")
                 (VStrMap {[ "name" := VString "old" ]})))
    as (w3 & l' & Hload & Hne & _);
    [apply well_formed_world_loaded | vm_compute; reflexivity .. |].
  exists w3, l'. split; [exact Hload | exact Hne].
Defined.

(** ** Cache keys *)

Lemma append_assoc (a b c : string) : (a ++ b) ++ c = a ++ (b ++ c).
Proof.
  induction a as [| ch a IH]; [reflexivity |].
  change (String ch ((a ++ b) ++ c) = String ch (a ++ (b ++ c))).
  now rewrite IH.
Qed.

Lemma append_dot_inj (a b x y : string) :
  Contains a dot = false ->
  Contains b dot = false ->
  a ++ String dot x = b ++ String dot y ->
  a = b /\ x = y.
Proof.
  revert b. induction a as [| ch a IH]; intros [| ch' b]; cbn.
  - now intros _ _ [= ->].
  - intros _ Hb [= <- _]. now rewrite Ascii.eqb_refl in Hb.
  - intros Ha _ [= -> _]. now rewrite Ascii.eqb_refl in Ha.
  - intros Ha Hb [= -> Heq].
    apply orb_false_iff in Ha as [_ Ha]. apply orb_false_iff in Hb as [_ Hb].
    destruct (IH b Ha Hb Heq) as [-> ->]. done.
Qed.

(** X17.  The cache key does not tell where the provider name ends and
    the path begins: after [Load] of the path [x.y] with the provider
    named [n], a [Load] of the path [y] with a provider named [n.x] (and a
    decoder of the same name) finds that entry, and returns the instance
    of the other provider and path without reading anything. *)
Theorem cache_key_collision {Env : Type} `{Yaml}
    (w w1 : World Env) (x y : string) (opts1 opts2 : list (@LoadOption Env))
    (d1 d2 : Codec) (provider1 provider2 : DataProvider Env) (l : loc) :
  decoder (resolve w (x ++ "." ++ y) opts1) = Some d1 ->
  p (resolve w (x ++ "." ++ y) opts1) = Some provider1 ->
  FullConfigLoader_Load w (x ++ "." ++ y) opts1 = Returns (w1, Ok l) ->
  decoder (resolve w1 y opts2) = Some d2 ->
  p (resolve w1 y opts2) = Some provider2 ->
  Codec_Name d2 = Codec_Name d1 ->
  Provider_Name provider2 = Provider_Name provider1 ++ "." ++ x ->
  Sprintf_key (Codec_Name d2) (Provider_Name provider2) y =
  Sprintf_key (Codec_Name d1) (Provider_Name provider1) (x ++ "." ++ y) /\
  FullConfigLoader_Load w1 y opts2 = Returns (w1, Ok l).
Proof.
  intros Hd1 Hp1 Hload Hd2 Hp2 Hdn Hpn.
  assert (Sprintf_key (Codec_Name d2) (Provider_Name provider2) y =
          Sprintf_key (Codec_Name d1) (Provider_Name provider1) (x ++ "." ++ y))
    as Hkey.
  { unfold Sprintf_key. rewrite Hdn, Hpn.
    f_equal. f_equal. now rewrite append_assoc. }
  split; [exact Hkey |].
  destruct (FullConfigLoader_Load_Ok _ _ _ _ _ Hload) as (d & pr & Hd & Hp & Hl).
  assert (d = d1) as -> by congruence.
  assert (pr = provider1) as -> by congruence.
  eapply FullConfigLoader_Load_hit; [eassumption .. |].
  now rewrite Hkey.
Qed.

Lemma cache_key_collision_witness :
  FullConfigLoader_Load (H := yaml_of_empty) world_nested "app" renamed_options =
  Returns (world_nested, Ok 0).
Proof.
  apply (cache_key_collision (H := yaml_of_empty) (file_world nested_files)
           world_nested "conf" "app" properties_options renamed_options
           PropertiesCodec PropertiesCodec FileProvider
           (RenamedProvider "file.conf") 0);
    vm_compute; reflexivity.
Defined.

(** X18.  When the decoder names contain no ['.'], equal cache keys have
    equal decoder names, and, if the provider names contain none either,
    equal provider names and equal paths.  The names of the three built-in
    codecs contain no ['.'], so a [Load] with one of them never finds an
    entry stored with another. *)
Theorem cache_key_injective `{Yaml} `{Json} `{Toml}
    (dn1 dn2 pn1 pn2 path1 path2 : string) :
  (Contains dn1 dot = false ->
   Contains dn2 dot = false ->
   Sprintf_key dn1 pn1 path1 = Sprintf_key dn2 pn2 path2 ->
   dn1 = dn2 /\
   (Contains pn1 dot = false -> Contains pn2 dot = false ->
    pn1 = pn2 /\ path1 = path2)) /\
  (forall d1 d2,
     d1 ∈ [ YamlCodec; JSONCodec; TomlCodec ] ->
     d2 ∈ [ YamlCodec; JSONCodec; TomlCodec ] ->
     Sprintf_key (Codec_Name d1) pn1 path1 = Sprintf_key (Codec_Name d2) pn2 path2 ->
     d1 = d2).
Proof.
  assert (forall a b, Contains a dot = false -> Contains b dot = false ->
            Sprintf_key a pn1 path1 = Sprintf_key b pn2 path2 ->
            a = b /\ (Contains pn1 dot = false -> Contains pn2 dot = false ->
                      pn1 = pn2 /\ path1 = path2)) as Hinj.
  { intros a b Ha Hb Hkey.
    destruct (append_dot_inj a b _ _ Ha Hb Hkey) as [-> Hrest].
    split; [done |]. intros Hp1 Hp2. now apply append_dot_inj. }
  split; [apply Hinj |].
  intros d1 d2 Hd1 Hd2 Hkey.
  assert (forall d, d ∈ [ YamlCodec; JSONCodec; TomlCodec ] ->
                    Contains (Codec_Name d) dot = false) as Hplain.
  { intros d Hd. repeat (apply elem_of_cons in Hd as [-> | Hd]; [reflexivity |]).
    now apply elem_of_nil in Hd. }
  destruct (Hinj _ _ (Hplain _ Hd1) (Hplain _ Hd2) Hkey) as [Hname _].
  repeat (apply elem_of_cons in Hd1 as [-> | Hd1]);
    repeat (apply elem_of_cons in Hd2 as [-> | Hd2]);
    try (now apply elem_of_nil in Hd1); try (now apply elem_of_nil in Hd2);
    try reflexivity; discriminate Hname.
Qed.

Lemma cache_key_injective_witness :
  "yaml" = "yaml" /\ "file" = "file" /\ "app.yaml" = "app.yaml".
Proof.
  destruct (cache_key_injective (H := yaml_of_empty) (H0 := json_of_empty)
              (H1 := toml_of_empty)
              "yaml" "yaml" "file" "file" "app.yaml" "app.yaml")
    as [Hinj _].
  destruct (Hinj eq_refl eq_refl eq_refl) as [Hname Hrest].
  split; [exact Hname |]. apply Hrest; reflexivity.
Defined.

(** X19.  The top-level [Reload] of a cached key refreshes the cached
    instance in place, through the provider, the path and the decoder of
    that instance: when its read and its decoding succeed, the instance
    at the same place holds the new bytes and the new tree, the cache is
    unchanged, nothing is printed, and [nil] is returned. *)
Theorem Reload_refreshes_in_place {Env : Type} `{Yaml}
    (w : World Env) (file : string) (opts : list (@LoadOption Env))
    (d : Codec) (provider : DataProvider Env) (l : loc)
    (c : FrameworkConfig Env) (cd : Codec) (cp : DataProvider Env)
    (data : list byte) (m : gmap string value) :
  decoder (resolve w file opts) = Some d ->
  p (resolve w file opts) = Some provider ->
  configMap (loader w)
    !! Sprintf_key (Codec_Name d) (Provider_Name provider) file = Some l ->
  heap w !! l = Some c ->
  p c = Some cp -> decoder c = Some cd ->
  Read cp (env w) (path c) = Ok data ->
  UnmarshalStringMap cd data ∅ = (m, None) ->
  exists w' c',
    FullConfigLoader_Reload w file opts = Returns (w', None) /\
    heap w' !! l = Some c' /\
    Bytes c' = data /\ unmarshedData c' = VStrMap m /\
    loader w' = loader w /\ stdout w' = stdout w.
Proof.
  intros Hd Hp Hkey Hl Hcp Hcd Hread Hdec.
  pose proof (FrameworkConfig_Reload_success (env w) c cp cd data m
                Hcp Hread Hcd Hdec) as Hre.
  rewrite (FullConfigLoader_Reload_present w _ opts d provider l Hd Hp Hkey).
  rewrite (reload_at_instance w l c _ [] Hl Hre). cbn.
  eexists _, {| p := p c; unmarshedData := VStrMap m; path := path c;
                decoder := decoder c; rawData := data |}.
  split; [reflexivity |]. cbn. split_and!; try reflexivity.
  - apply list_lookup_insert_eq. eapply lookup_lt_Some; eassumption.
  - apply app_nil_r.
Qed.

Lemma Reload_refreshes_in_place_witness :
  exists w' c',
    FullConfigLoader_Reload (H := yaml_of_empty) (world_after 1)
      "app.properties" properties_options = Returns (w', None) /\
    heap w' !! 0 = Some c' /\
    Bytes c' = bytes_of "name=new".
Proof.
  destruct (Reload_refreshes_in_place (H := yaml_of_empty) (world_after 1)
              "app.properties" properties_options PropertiesCodec FileProvider 0
              (instance_with (bytes_of "name=old")
                 (VStrMap {[ "name" := VString "old" ]}))
              PropertiesCodec FileProvider (bytes_of "name=new")
              {[ "name" := VString "new" ]})
    as (w' & c' & Hre & Hl & Hbytes & _); try (vm_compute; reflexivity).
  exists w', c'. auto.
Defined.
